(** * Market correlation analysis: classification, category mapping, grouping

    A shallow embedding of [correlation_analysis/config.py],
    [correlation_analysis/logic.py] and [correlation_analysis/data.py], of
    what the labels of [correlation_analysis/gui.py] show, and of the same
    computations in the single-file version that precedes the package.

    Python [float] is IEEE 754 binary64, embedded as Rocq's primitive
    [float]; comparisons are the IEEE ones (every comparison with
    not-a-number is false).  Labels and tags are [string]s, the category map
    is a [gmap string string], and the grouped result is a
    [gmap string (list Entry)]. *)

From Stdlib Require Import ZArith Uint63 Floats Ascii Lia.
From stdpp Require Import gmap strings list.

Set Warnings "-inexact-float".

(** ** Exceptions

    The Python exceptions the modelled code can raise, and the result of a
    call that may raise. *)

Inductive exn : Type :=
| IndexError
| KeyError (key : string)
| OverflowError.

Inductive result (A : Type) : Type :=
| Ok (a : A)
| Raise (e : exn).

Arguments Ok {A} a.
Arguments Raise {A} e.

#[global] Instance result_ret : MRet result := λ A a, Ok a.
#[global] Instance result_bind : MBind result := λ A B f m,
  match m with
  | Ok a => f a
  | Raise e => Raise e
  end.

Definition is_Ok {A} (r : result A) : Prop := ∃ a, r = Ok a.

(** A [for] loop over [xs] whose body updates the state [s] or raises. *)
Fixpoint for_each {A S : Type} (xs : list A) (body : A → S → result S) (s : S)
  : result S :=
  match xs with
  | [] => Ok s
  | x :: xs' => s' ← body x s; for_each xs' body s'
  end.

(** [xs[i]] for a non-negative [i]. *)
Definition list_get {A} (xs : list A) (i : nat) : result A :=
  match xs !! i with
  | Some x => Ok x
  | None => Raise IndexError
  end.

(** [d[k]] on a dict. *)
Definition dict_get {V} (d : gmap string V) (k : string) : result V :=
  match d !! k with
  | Some v => Ok v
  | None => Raise (KeyError k)
  end.

(** ** Data frames

    A [pandas.DataFrame] of floats: row labels, column labels and the cells,
    row by row. *)

Record DataFrame : Type := mkDataFrame {
  index : list string;
  columns : list string;
  values : list (list float)
}.

Definition nrows (df : DataFrame) : nat := length (index df).
Definition ncols (df : DataFrame) : nat := length (columns df).

(** The cells form an [nrows] x [ncols] rectangle. *)
Definition rectangular (df : DataFrame) : Prop :=
  length (values df) = nrows df ∧
  Forall (λ row, length row = ncols df) (values df).

(** [float(df.iloc[i, j])] for non-negative positions: out of bounds raises
    [IndexError]. *)
Definition iloc (df : DataFrame) (i j : nat) : result float :=
  row ← list_get (values df) i; list_get row j.

(** ** IEEE comparisons through a lexicographic key *)

Module FloatOrder.

(** A float that is not NaN is ranked by a class (-2 for -oo, -1 for negative
    finite, 0 for zeros, 1 for positive finite, 2 for +oo), then by exponent,
    then by mantissa (both negated on the negative side). *)
Definition key : Type := (Z * Z * Z)%type.

Definition sf_key (f : spec_float) : option key :=
  match f with
  | S754_nan => None
  | S754_zero _ => Some (0, 0, 0)%Z
  | S754_infinity s => Some (if s then (-2) else 2, 0, 0)%Z
  | S754_finite s m e =>
      Some (if s then (-1, - e, - Z.pos m) else (1, e, Z.pos m))%Z
  end.

Definition fkey (x : float) : option key := sf_key (Prim2SF x).

Definition key_lt (a b : key) : Prop :=
  (a.1.1 < b.1.1 ∨
   (a.1.1 = b.1.1 ∧ (a.1.2 < b.1.2 ∨ (a.1.2 = b.1.2 ∧ a.2 < b.2))))%Z.

Definition key_le (a b : key) : Prop :=
  (a.1.1 < b.1.1 ∨
   (a.1.1 = b.1.1 ∧ (a.1.2 < b.1.2 ∨ (a.1.2 = b.1.2 ∧ a.2 ≤ b.2))))%Z.

Definition flt (x y : float) : Prop :=
  match fkey x, fkey y with
  | Some a, Some b => key_lt a b
  | _, _ => False
  end.

Definition fle (x y : float) : Prop :=
  match fkey x, fkey y with
  | Some a, Some b => key_le a b
  | _, _ => False
  end.

End FloatOrder.

(** ** config.py *)

Module config.

Definition SHORT_TERM_DAYS : nat := 15.
Definition MEDIUM_TERM_DAYS : nat := 60.

Definition TWINS_THRESHOLD : float := 0.80.
Definition MODERATE_POS_THRESHOLD : float := 0.50.
Definition INDEPENDENT_LOW : float := -0.20.
Definition INDEPENDENT_HIGH : float := 0.20.
Definition WEAK_NEG_THRESHOLD : float := -0.50.
Definition MIRROR_THRESHOLD : float := -0.80.

(** The dict literal, in insertion order. *)
Definition SECTORS : list (string * list string) :=
  [ ("Stock Indices", ["ES"; "NQ"; "YM"; "RTY"]);
    ("Energies", ["CL"; "RB"; "NG"; "HO"]);
    ("Metals", ["GC"; "SI"; "HG"; "PL"]);
    ("Crypto", ["BTC"; "ETH"]);
    ("Currencies", ["6B"; "6J"; "6E"; "6S"; "6N"; "6A"; "6C"]);
    ("Bonds/Fixed Income", ["ZN"; "ZT"]);
    ("Agriculture (Grains)", ["ZW"; "ZS"; "ZC"; "ZM"; "ZL"]);
    ("Livestock (Meats)", ["LE"; "HE"]) ].

(** Display thresholds and colours. *)
Definition WEAK_CORRELATION_DISPLAY : float := 0.30.
Definition DIFF_POSITIVE_THRESHOLD : float := 0.10.
Definition DIFF_NEGATIVE_THRESHOLD : float := -0.10.
Definition PCT_CHANGE_MIN_DENOMINATOR : float := 0.01.
Definition NEW_CORRELATION_THRESHOLD : float := 0.10.

Definition COLOR_POSITIVE : string := "#006400".
Definition COLOR_NEGATIVE : string := "#8B0000".
Definition COLOR_NEUTRAL : string := "black".

(** The registry of instruments, label to provider symbol, in insertion
    order. *)
Definition ASSETS : list (string * string) :=
  [ ("6B (Pound)", "6B=F");
    ("ZN (10Y Bond)", "ZN=F");
    ("6J (Yen)", "6J=F");
    ("6E (Euro)", "6E=F");
    ("6S (Swiss Franc)", "6S=F");
    ("6N (NZD)", "6N=F");
    ("6A (AUD)", "6A=F");
    ("6C (CAD)", "6C=F");
    ("ZT (2Y Bond)", "ZT=F");
    ("ZW (Wheat)", "ZW=F");
    ("ZS (Soybean)", "ZS=F");
    ("ZC (Corn)", "ZC=F");
    ("ZM (Soy Meal)", "ZM=F");
    ("ZL (Soy Oil)", "ZL=F");
    ("LE (Live Cattle)", "LE=F");
    ("HE (Lean Hogs)", "HE=F");
    ("BTC", "BTC-USD");
    ("ETH", "ETH-USD");
    ("GC (Gold)", "GC=F");
    ("SI (Silver)", "SI=F");
    ("HG (Copper)", "HG=F");
    ("PL (Platinum)", "PL=F");
    ("CL (WTI Crude)", "CL=F");
    ("RB (Gasoline)", "RB=F");
    ("NG (Nat Gas)", "NG=F");
    ("HO (Heating Oil)", "HO=F");
    ("ES (S&P 500)", "ES=F");
    ("NQ (Nasdaq)", "NQ=F");
    ("YM (Dow Jones)", "YM=F");
    ("RTY (Russell)", "RTY=F") ].

End config.

Import config.

(** ** logic.py *)

(** The platform's C [pow], which CPython's [float.__pow__] calls once its own
    special cases are dealt with.  IEEE 754 does not fix its rounding, so it
    stays a parameter of the development. *)
Class Libm : Type := { libm_pow : float → float → float }.

Module logic.

(** One row of a bucket:
    [(pair_label, correlation, r_squared_pct, interpretation, tag)]. *)
Record Entry : Type := mkEntry {
  pair_label : string;
  correlation : float;
  r_squared_pct : float;
  interpretation : string;
  tag : string
}.

Definition classify_correlation (val : float) : string * string :=
  if (TWINS_THRESHOLD <=? val)%float then
    ("Twins (High Risk)", "pos_strong")
  else if (MODERATE_POS_THRESHOLD <=? val)%float then
    ("Moderate Positive", "pos_mod")
  else if (INDEPENDENT_LOW <=? val)%float && (val <=? INDEPENDENT_HIGH)%float then
    ("Independent (Diversify)", "null")
  else if (WEAK_NEG_THRESHOLD <? val)%float && (val <? INDEPENDENT_LOW)%float then
    ("Weak Inverse", "neg_weak")
  else if (MIRROR_THRESHOLD <? val)%float && (val <=? WEAK_NEG_THRESHOLD)%float then
    ("Moderate Inverse", "neg_mod")
  else if (val <=? MIRROR_THRESHOLD)%float then
    ("Mirror (Hedging)", "neg_strong")
  else
    ("Weak Positive / Noise", "weak").

(** [asset_full.startswith(ticker_key + " ") or asset_full == ticker_key] *)
Definition ticker_matches (ticker_key asset_full : string) : bool :=
  String.prefix (ticker_key +:+ " ") asset_full || String.eqb asset_full ticker_key.

(** The three nested loops of [build_category_map], innermost first. *)
Definition scan_assets (cat ticker_key : string) (assets : list string)
    (cat_map : gmap string string) : gmap string string :=
  foldl (λ cat_map asset_full,
           if ticker_matches ticker_key asset_full
           then <[asset_full := cat]> cat_map
           else cat_map)
        cat_map assets.

Definition scan_tickers (cat : string) (tickers assets : list string)
    (cat_map : gmap string string) : gmap string string :=
  foldl (λ cat_map ticker_key, scan_assets cat ticker_key assets cat_map)
        cat_map tickers.

Definition scan_sectors (sectors : list (string * list string))
    (assets : list string) (cat_map : gmap string string)
  : gmap string string :=
  foldl (λ cat_map '(cat, tickers), scan_tickers cat tickers assets cat_map)
        cat_map sectors.

Definition build_category_map (assets : list string) : gmap string string :=
  scan_sectors SECTORS assets ∅.

(** [val**2] on a Python float, following CPython's [float_pow] at the
    exponent 2.0: NaN is returned as it is, an infinity gives [+inf], a zero
    gives [0.0], a negative base is negated, 1.0 gives 1.0, and anything else
    goes to the C [pow]; a result that overflows to an infinity raises
    [OverflowError] (an underflow to zero is silent). *)
Definition float_pow2 `{Libm} (iv : float) : result float :=
  if PrimFloat.is_nan iv then Ok iv
  else if PrimFloat.is_infinity iv then Ok (PrimFloat.abs iv)
  else if (iv =? 0)%float then Ok 0%float
  else
    let iv := if (iv <? 0)%float then (- iv)%float else iv in
    if (iv =? 1)%float then Ok 1%float
    else
      let ix := libm_pow iv 2%float in
      if PrimFloat.is_infinity ix then Raise OverflowError else Ok ix.

Definition INTER_MARKET : string := "Inter-Market (Mixed)".

(** [{cat: [] for cat in SECTORS}] followed by
    [grouped["Inter-Market (Mixed)"] = []]. *)
Definition initial_grouped : gmap string (list Entry) :=
  <[INTER_MARKET := []]>
    (foldl (λ grouped '(cat, _), <[cat := []]> grouped) ∅ SECTORS).

(** [grouped[bucket].append(e)] *)
Definition append_to (bucket : string) (e : Entry)
    (grouped : gmap string (list Entry)) : result (gmap string (list Entry)) :=
  items ← dict_get grouped bucket;
  Ok (<[bucket := items ++ [e]]> grouped).

(** The body of the inner loop of [group_correlations], at positions [i], [j]. *)
Definition pair_step `{Libm} (assets : list string) (corr_matrix : DataFrame)
    (cat_map : gmap string string) (i j : nat)
    (grouped : gmap string (list Entry)) : result (gmap string (list Entry)) :=
  asset_a ← list_get assets i;
  asset_b ← list_get assets j;
  val ← iloc corr_matrix i j;
  sq ← float_pow2 val;
  let r2 := (sq * 100)%float in
  let cat_a := default "Others" (cat_map !! asset_a) in
  let cat_b := default "Others" (cat_map !! asset_b) in
  let '(tipo, tag) := classify_correlation val in
  let e := mkEntry (asset_a +:+ " vs " +:+ asset_b) val r2 tipo tag in
  if String.eqb cat_a cat_b && negb (String.eqb cat_a "Others") then
    append_to cat_a e grouped
  else if negb (existsb (String.eqb tag) ["weak"; "null"]) then
    append_to INTER_MARKET e grouped
  else
    Ok grouped.

Definition group_correlations `{Libm} (assets : list string)
    (corr_matrix : DataFrame) (cat_map : gmap string string)
  : result (gmap string (list Entry)) :=
  let n := length assets in
  for_each (seq 0 n)
    (λ i grouped,
       for_each (seq (i + 1) (n - (i + 1)))
         (λ j grouped, pair_step assets corr_matrix cat_map i j grouped)
         grouped)
    initial_grouped.

End logic.

Import logic.

(** ** The pandas operations used by data.py

    [DataFrame.pct_change], [DataFrame.dropna] and [DataFrame.corr] are
    library code; they are modelled here after the library's documented
    behaviour, on the cells of a frame, with IEEE arithmetic.  None of them
    checks the shape or the labels of the frame it is given. *)

(** The one point where the major versions of the library differ for
    data.py: [pct_change] called without [fill_method] first carries the
    last price forward over the missing ones under pandas 2 (the default
    ['pad']), and divides the prices as they are under pandas 3.  The
    package does not pin the version, so it stays a parameter. *)
Class Pandas : Type := { pct_change_pads : bool }.

Module pandas.

(** [df.shift(periods)]: the rows move down by [periods], NaN rows come in at
    the top, the labels stay. *)
Definition shift (periods : nat) (df : DataFrame) : DataFrame :=
  let n := length (values df) in
  mkDataFrame (index df) (columns df)
    (replicate (periods `min` n) (replicate (ncols df) nan)
       ++ take (n - periods) (values df)).

(** One row of [df.ffill()]: a missing cell takes the cell above it in the
    filled frame, [last]. *)
Definition ffill_row (last row : list float) : list float :=
  imap (λ j v, if PrimFloat.is_nan v then default nan (last !! j) else v) row.

Fixpoint ffill_rows (last : list float) (rows : list (list float))
  : list (list float) :=
  match rows with
  | [] => []
  | row :: rows' =>
      let filled := ffill_row last row in filled :: ffill_rows filled rows'
  end.

(** [df.ffill()]: every missing cell takes the last cell above it in its
    column that is not missing, and stays missing when there is none. *)
Definition ffill (df : DataFrame) : DataFrame :=
  mkDataFrame (index df) (columns df) (ffill_rows [] (values df)).

(** [df.pct_change(periods)]: [data / data.shift(periods) - 1], cell by
    cell, where [data] is [df] filled forward under pandas 2 and [df] itself
    under pandas 3. *)
Definition pct_change `{Pandas} (periods : nat) (df : DataFrame) : DataFrame :=
  let data := if pct_change_pads then ffill df else df in
  mkDataFrame (index data) (columns data)
    (zip_with (zip_with (λ p q, (p / q - 1)%float))
       (values data) (values (shift periods data))).

(** [df.dropna()]: the rows with a NaN cell are removed, with their labels. *)
Definition dropna (df : DataFrame) : DataFrame :=
  let kept :=
    List.filter (λ lr, forallb (λ v, negb (PrimFloat.is_nan v)) lr.2)
      (zip (index df) (values df)) in
  mkDataFrame kept.*1 (columns df) kept.*2.

(** The running sums of Welford's method, as [nancorr] keeps them. *)
Record welford : Type := mkWelford {
  nobs : Z;
  meanx : float;
  meany : float;
  ssqdm_x : float;
  ssqdm_y : float;
  covxy : float
}.

Definition float_of_Z (z : Z) : float := PrimFloat.of_uint63 (Uint63.of_Z z).

Definition welford_step (w : welford) (vx vy : float) : welford :=
  if PrimFloat.is_finite vx && PrimFloat.is_finite vy then
    let n := (nobs w + 1)%Z in
    let dx := (vx - meanx w)%float in
    let dy := (vy - meany w)%float in
    let mx := (meanx w + 1 / float_of_Z n * dx)%float in
    let my := (meany w + 1 / float_of_Z n * dy)%float in
    mkWelford n mx my
      (ssqdm_x w + (vx - mx) * dx)%float
      (ssqdm_y w + (vy - my) * dy)%float
      (covxy w + (vx - mx) * dy)%float
  else w.

(** One cell of [nancorr(mat, minp=1)]: the Pearson coefficient of two
    columns over the rows where both are finite, clipped to [-1, 1]; NaN when
    no row is left or a variance is zero. *)
Definition nancorr_cell (xs ys : list float) : float :=
  let w := foldl (λ w xy, welford_step w xy.1 xy.2)
             (mkWelford 0 0 0 0 0 0) (zip xs ys) in
  if (nobs w <? 1)%Z then nan
  else
    let divisor := PrimFloat.sqrt (ssqdm_x w * ssqdm_y w) in
    if negb (divisor =? 0)%float then
      let val := (covxy w / divisor)%float in
      if (1 <? val)%float then 1%float
      else if (val <? -1)%float then (-1)%float
      else val
    else nan.

Definition column (df : DataFrame) (j : nat) : list float :=
  map (λ row, default nan (row !! j)) (values df).

(** [df.corr()]: the square frame of the coefficients of every two columns,
    labelled by the columns on both axes; the cell at [(xi, yi)] and the one
    at [(yi, xi)] are computed once, from the later column against the
    earlier one. *)
Definition corr (df : DataFrame) : DataFrame :=
  let k := ncols df in
  mkDataFrame (columns df) (columns df)
    (map (λ xi,
            map (λ yi, nancorr_cell (column df (xi `max` yi))
                                    (column df (xi `min` yi)))
                (seq 0 k))
         (seq 0 k)).

(** The column labels after [df.rename(columns=mapper)]: a label that is a
    key of the mapper is replaced by its value, any other label stays. *)
Definition rename_columns (mapper : gmap string string) (cols : list string)
  : list string :=
  (λ c, default c (mapper !! c)) <$> cols.

End pandas.

(** ** data.py *)

Module data.

(** The function has no [raise] and no check of its own, and the three
    library calls go through on every frame: its only exit is the [return]. *)
Definition compute_correlation_matrices `{Pandas} (data : DataFrame)
  : result (DataFrame * DataFrame) :=
  let corr_short :=
    pandas.corr (pandas.dropna (pandas.pct_change SHORT_TERM_DAYS data)) in
  let corr_medium :=
    pandas.corr (pandas.dropna (pandas.pct_change MEDIUM_TERM_DAYS data)) in
  Ok (corr_short, corr_medium).

(** [{v: k for k, v in registry.items()}], as [download_market_data] builds
    it from [ASSETS] to rename the columns of the download. *)
Definition invert (registry : list (string * string)) : gmap string string :=
  foldl (λ inv kv, <[kv.2 := kv.1]> inv) ∅ registry.

Definition inv_map : gmap string string := invert ASSETS.

End data.

Import data.

(** ** gui.py: what the labels of the views show

    Python's [format(x, spec)] on a float stays a parameter. *)
Class FloatFormat : Type := { format_float : string → float → string }.

Module gui.

(** [_update_view_generic]: the colour of the result label for the
    correlation [val] of the selected pair. *)
Definition update_view_color (val : float) : string :=
  if (PrimFloat.abs val <? WEAK_CORRELATION_DISPLAY)%float then "gray"
  else if (0 <? val)%float then "green"
  else "red".

(** [_update_diff_view]: the text in brackets after the difference. *)
Definition update_diff_pct_text `{FloatFormat} (v_medium diff : float)
  : string :=
  if (PCT_CHANGE_MIN_DENOMINATOR <? PrimFloat.abs v_medium)%float then
    let pct_change := (diff / PrimFloat.abs v_medium * 100)%float in
    "(" +:+ format_float "+.1f" pct_change +:+ "%)"
  else if (NEW_CORRELATION_THRESHOLD <? PrimFloat.abs diff)%float then "(New)"
  else "(No change)".

(** [_update_diff_view]: the colour of the result label. *)
Definition update_diff_color (diff : float) : string :=
  if (DIFF_POSITIVE_THRESHOLD <? diff)%float then COLOR_POSITIVE
  else if (diff <? DIFF_NEGATIVE_THRESHOLD)%float then COLOR_NEGATIVE
  else COLOR_NEUTRAL.

End gui.

(** ** The single-file version of the program

    The file that precedes the package computes the same things inline, in
    the methods of its window class. *)

Module legacy.

(** [setup_strong_corr_tab]: the interpretation and the tag of a pair, set
    to a default and then by the chain of [if]/[elif]/[else]. *)
Definition classify (val : float) : string * string :=
  let tipo := "Moderate" in
  let tag := "normal" in
  if (0.80 <=? val)%float then ("Twins (High Risk)", "pos_strong")
  else if (0.50 <=? val)%float && (val <? 0.80)%float then
    ("Moderate Positive", "pos_mod")
  else if (-0.20 <=? val)%float && (val <=? 0.20)%float then
    ("Independent (Diversify)", "null")
  else if (-0.50 <? val)%float && (val <? -0.20)%float then
    ("Weak Inverse", "neg_weak")
  else if (-0.80 <? val)%float && (val <=? -0.50)%float then
    ("Moderate Inverse", "neg_mod")
  else if (val <=? -0.80)%float then ("Mirror (Hedging)", "neg_strong")
  else ("Weak Positive / Noise", "weak").

(** [setup_strong_corr_tab]: whether the pair is listed, and where. *)
Definition target (cat_a cat_b tag : string) : option string :=
  let incluir := false in
  let target_cat := "Inter-Market (Mixed)" in
  let '(target_cat, incluir) :=
    if String.eqb cat_a cat_b && negb (String.eqb cat_a "Others") then
      (cat_a, true)
    else if negb (String.eqb tag "weak") && negb (String.eqb tag "null") then
      (target_cat, true)
    else (target_cat, incluir) in
  if incluir then Some target_cat else None.

(** [update_view_generic]: the colour, chosen by sign and then overridden
    for a weak correlation. *)
Definition update_view_color (val : float) : string :=
  let color := if (0 <? val)%float then "green" else "red" in
  if (PrimFloat.abs val <? 0.3)%float then "gray" else color.

(** [update_diff_view]: the colour, by a conditional expression. *)
Definition update_diff_color (diff : float) : string :=
  if (0.1 <? diff)%float then "#006400"
  else if (diff <? -0.1)%float then "#8B0000"
  else "black".

(** [update_diff_view]: the text in brackets. *)
Definition update_diff_pct_text `{FloatFormat} (v60 diff : float) : string :=
  if (0.01 <? PrimFloat.abs v60)%float then
    let pct_change := (diff / PrimFloat.abs v60 * 100)%float in
    "(" +:+ format_float "+.1f" pct_change +:+ "%)"
  else if (0.1 <? PrimFloat.abs diff)%float then "(New)"
  else "(No change)".

(** [setup_strong_corr_tab]: the sector table, written out in the method. *)
Definition categorias_raw : list (string * list string) :=
  [ ("Stock Indices", ["ES"; "NQ"; "YM"; "RTY"]);
    ("Energies", ["CL"; "RB"; "NG"; "HO"]);
    ("Metals", ["GC"; "SI"; "HG"; "PL"]);
    ("Crypto", ["BTC"; "ETH"]);
    ("Currencies", ["6B"; "6J"; "6E"; "6S"; "6N"; "6A"; "6C"]);
    ("Bonds/Fixed Income", ["ZN"; "ZT"]);
    ("Agriculture (Grains)", ["ZW"; "ZS"; "ZC"; "ZM"; "ZL"]);
    ("Livestock (Meats)", ["LE"; "HE"]) ].

(** [setup_strong_corr_tab]: the body of the inner loop.  The entry is used
    as [iloc] gives it, a [numpy.float64]: its [** 2] is the C [pow] and
    raises nothing. *)
Definition pair_step `{Libm} (assets : list string) (corr_matrix : DataFrame)
    (cat_map : gmap string string) (i j : nat)
    (grouped_data : gmap string (list Entry))
  : result (gmap string (list Entry)) :=
  asset_a ← list_get assets i;
  asset_b ← list_get assets j;
  val ← iloc corr_matrix i j;
  let r2 := (libm_pow val 2 * 100)%float in
  let cat_a := default "Others" (cat_map !! asset_a) in
  let cat_b := default "Others" (cat_map !! asset_b) in
  let '(tipo, tag) := classify val in
  match target cat_a cat_b tag with
  | Some target_cat =>
      append_to target_cat
        (mkEntry (asset_a +:+ " vs " +:+ asset_b) val r2 tipo tag) grouped_data
  | None => Ok grouped_data
  end.

(** [setup_strong_corr_tab]: the category map, the empty buckets and the two
    loops, up to the dict that the tree is filled from. *)
Definition grouped_data `{Libm} (assets : list string)
    (corr_matrix : DataFrame) : result (gmap string (list Entry)) :=
  let cat_map := scan_sectors categorias_raw assets ∅ in
  let grouped_data :=
    <["Inter-Market (Mixed)" := []]>
      (foldl (λ grouped '(cat, _), <[cat := []]> grouped) ∅ categorias_raw) in
  let n := length assets in
  for_each (seq 0 n)
    (λ i grouped_data,
       for_each (seq (i + 1) (n - (i + 1)))
         (λ j grouped_data,
            pair_step assets corr_matrix cat_map i j grouped_data)
         grouped_data)
    grouped_data.

End legacy.

(** A C library whose [pow] is correctly rounded at the exponent 2, used to
    run the code on concrete inputs. *)
Definition square_libm : Libm := {| libm_pow := λ x _, (x * x)%float |}.

(** The two major versions of pandas. *)
Definition pandas2 : Pandas := {| pct_change_pads := true |}.
Definition pandas3 : Pandas := {| pct_change_pads := false |}.

(** * Vocabulary of the statements *)

(** The seven conditions of the ladder, as the comparisons Python makes. *)
Definition ladder_case (v : float) : Prop :=
  (0.80 <=? v)%float = true ∨
  ((0.50 <=? v)%float = true ∧ (v <? 0.80)%float = true) ∨
  ((-0.20 <=? v)%float = true ∧ (v <=? 0.20)%float = true) ∨
  ((-0.50 <? v)%float = true ∧ (v <? -0.20)%float = true) ∨
  ((-0.80 <? v)%float = true ∧ (v <=? -0.50)%float = true) ∨
  (v <=? -0.80)%float = true ∨
  ((0.20 <? v)%float = true ∧ (v <? 0.50)%float = true).

Definition TAGS : list string :=
  ["pos_strong"; "pos_mod"; "null"; "neg_weak"; "neg_mod"; "neg_strong"; "weak"].

(** The characters of a label up to its first space. *)
Fixpoint first_token (s : string) : string :=
  match s with
  | EmptyString => EmptyString
  | String c s' =>
      if Ascii.eqb c " "%char then EmptyString else String c (first_token s')
  end.

Fixpoint nospace (s : string) : bool :=
  match s with
  | EmptyString => true
  | String c s' => negb (Ascii.eqb c " "%char) && nospace s'
  end.

(** The sector that the taxonomy gives to a label: the last one, in the
    order of the taxonomy, with a ticker that matches. *)
Definition sector_of_label (sectors : list (string * list string))
    (label : string) (acc : option string) : option string :=
  foldl (λ acc ct, if existsb (λ p, ticker_matches p label) ct.2
                   then Some ct.1 else acc)
        acc sectors.

(** The positions [(i, j)] with [i < j < n], row by row. *)
Definition all_pairs (n : nat) : list (nat * nat) :=
  i ← seq 0 n; (λ j, (i, j)) <$> seq (i + 1) (n - (i + 1)).

(** The keys of the grouped result: the sectors of the taxonomy, then the
    mixed bucket. *)
Definition bucket_names : list string := SECTORS.*1 ++ [INTER_MARKET].

(** The sector an instrument resolves to. *)
Definition sector_of (cat_map : gmap string string) (asset : string) : string :=
  default "Others" (cat_map !! asset).

(** Where a pair goes: to the sector its two instruments share when that
    sector is not "Others"; otherwise to the mixed bucket when its tag is
    neither weak nor null; otherwise nowhere. *)
Definition bucket_of (cat_map : gmap string string) (a b tag : string)
  : option string :=
  if decide (sector_of cat_map a = sector_of cat_map b ∧
             sector_of cat_map a ≠ "Others")
  then Some (sector_of cat_map a)
  else if decide (tag ≠ "weak" ∧ tag ≠ "null") then Some INTER_MARKET
  else None.

(** The row written for the pair of [a] and [b] with correlation [v], whose
    square is [sq]. *)
Definition entry_of (a b : string) (v sq : float) : Entry :=
  mkEntry (a +:+ " vs " +:+ b) v (sq * 100)%float
          (classify_correlation v).1 (classify_correlation v).2.

Section grouping.
Context `{Libm}.
Context (assets : list string) (corr_matrix : DataFrame)
        (cat_map : gmap string string).

(** The bucket and the row of the pair at [p], when the matrix has the entry
    and its square does not overflow. *)
Definition placement (p : nat * nat) : option (string * Entry) :=
  a ← assets !! p.1;
  b ← assets !! p.2;
  match iloc corr_matrix p.1 p.2 with
  | Ok v =>
      match float_pow2 v with
      | Ok sq =>
          bucket ← bucket_of cat_map a b (classify_correlation v).2;
          Some (bucket, entry_of a b v sq)
      | Raise _ => None
      end
  | Raise _ => None
  end.

Definition placed_in (bucket : string) (p : nat * nat) : option Entry :=
  be ← placement p; if decide (be.1 = bucket) then Some be.2 else None.

(** Every position above the diagonal is inside the matrix. *)
Definition covers : Prop :=
  Forall (λ p, is_Ok (iloc corr_matrix p.1 p.2)) (all_pairs (length assets)).

(** No entry above the diagonal is so large that its square overflows. *)
Definition squares_fit : Prop :=
  Forall (λ p, ∀ v, iloc corr_matrix p.1 p.2 = Ok v → is_Ok (float_pow2 v))
         (all_pairs (length assets)).

(** Every instrument resolves to "Others" or to a bucket of the result. *)
Definition sectors_known : Prop :=
  Forall (λ a, sector_of cat_map a = "Others" ∨
               sector_of cat_map a ∈ bucket_names) assets.

(** The matrix is square, of the size of the label list. *)
Definition square_over : Prop :=
  rectangular corr_matrix ∧
  nrows corr_matrix = length assets ∧ ncols corr_matrix = length assets.

(** What the claims call the grouping: the call returns a dict whose keys
    are the bucket names, and each bucket lists, in the order of
    [all_pairs], the rows of the pairs placed in it. *)
Definition grouped_as_specified : Prop :=
  ∃ grouped,
    group_correlations assets corr_matrix cat_map = Ok grouped ∧
    ∀ bucket,
      grouped !! bucket =
      if bool_decide (bucket ∈ bucket_names)
      then Some (omap (placed_in bucket) (all_pairs (length assets)))
      else None.

End grouping.

(** ** The inputs of the tests, and inputs off the expected path *)

Definition test_assets : list string :=
  ["ES (S&P 500)"; "NQ (Nasdaq)"; "GC (Gold)"].

Definition test_matrix : DataFrame :=
  mkDataFrame test_assets test_assets
    [[1; 0.95; 0.10]; [0.95; 1; 0.05]; [0.10; 0.05; 1]]%float.

Definition two_indices : list string := ["ES (S&P 500)"; "NQ (Nasdaq)"].

Definition two_mixed : list string := ["ES (S&P 500)"; "GC (Gold)"].

Definition matrix2 (labels : list string) (v : float) : DataFrame :=
  mkDataFrame labels labels [[1; v]; [v; 1]]%float.

(** A category map that names a sector the taxonomy does not have. *)
Definition foreign_map : gmap string string :=
  <["ES (S&P 500)" := "Equities"]> (<["NQ (Nasdaq)" := "Equities"]> ∅).

(** A 3 x 3 matrix, to be given with two labels. *)
Definition matrix3 : DataFrame :=
  mkDataFrame test_assets test_assets
    [[1; 0.85; 0.10]; [0.85; 1; 0.05]; [0.10; 0.05; 1]]%float.

(** The bucket of a result, when the call returned. *)
Definition bucket (r : result (gmap string (list Entry))) (name : string)
  : option (list Entry) :=
  match r with
  | Ok grouped => grouped !! name
  | Raise _ => None
  end.

(** A price table the specification calls malformed or empty. *)
Definition malformed (data : DataFrame) : Prop :=
  nrows data = 0 ∨ ncols data = 0 ∨ ¬ NoDup (columns data).

(** A square frame labelled by [labels] on both axes. *)
Definition square_labelled (labels : list string) (df : DataFrame) : Prop :=
  index df = labels ∧ columns df = labels ∧ rectangular df.

Definition no_rows : DataFrame := mkDataFrame [] ["A"; "B"] [].

Definition no_columns : DataFrame := mkDataFrame ["d1"; "d2"] [] [[]; []].

(** Seventeen days of two series that carry the same label. *)
Definition twice_A : DataFrame :=
  mkDataFrame
    ["d01"; "d02"; "d03"; "d04"; "d05"; "d06";
     "d07"; "d08"; "d09"; "d10"; "d11"; "d12";
     "d13"; "d14"; "d15"; "d16"; "d17"]
    ["A"; "A"]
    [[1; 1];
     [2; 4];
     [3; 9];
     [4; 16];
     [5; 25];
     [6; 36];
     [7; 49];
     [8; 64];
     [9; 81];
     [10; 100];
     [11; 121];
     [12; 144];
     [13; 169];
     [14; 196];
     [15; 225];
     [16; 256];
     [17; 289]]%float.

(** ** Further vocabulary *)

(** The place of a tag on the line from the strongest inverse relation to the
    strongest direct one. *)
Definition tag_rank (tag : string) : nat :=
  if String.eqb tag "neg_strong" then 0
  else if String.eqb tag "neg_mod" then 1
  else if String.eqb tag "neg_weak" then 2
  else if String.eqb tag "null" then 3
  else if String.eqb tag "weak" then 4
  else if String.eqb tag "pos_mod" then 5
  else 6.

(** The number of thresholds at or below a value, counting from the bottom
    of the ladder. *)
Definition thresholds_passed (v : float) : nat :=
  if (0.80 <=? v)%float then 6
  else if (0.50 <=? v)%float then 5
  else if (0.20 <? v)%float then 4
  else if (-0.20 <=? v)%float then 3
  else if (-0.50 <? v)%float then 2
  else if (-0.80 <? v)%float then 1
  else 0.

(** A formatter that prints nothing, to run the code where no number is
    formatted. *)
Definition no_format : FloatFormat := {| format_float := λ _ _, "" |}.

(** The key of an absolute value. *)
Definition key_abs (k : FloatOrder.key) : FloatOrder.key :=
  if (k.1.1 <? 0)%Z then (- k.1.1, - k.1.2, - k.2)%Z else k.

(** The grouped result of a call that returned, the empty dict otherwise. *)
Definition returned (r : result (gmap string (list Entry)))
  : gmap string (list Entry) :=
  match r with
  | Ok grouped => grouped
  | Raise _ => ∅
  end.

(** ** Vocabulary of the rule, pair by pair *)

(** Two instruments of one sector that is not "Others". *)
Definition same_sector (cat_map : gmap string string) (a b : string) : Prop :=
  sector_of cat_map a = sector_of cat_map b ∧ sector_of cat_map a ≠ "Others".

(** The row of the pair of [a] and [b] when their correlation is not a
    number. *)
Definition nan_entry (a b : string) : Entry :=
  mkEntry (a +:+ " vs " +:+ b) nan nan "Weak Positive / Noise" "weak".

(** The row that a bucket owes to the position [p] when the entry there is
    not a number: the row of the pair when its two instruments are of the
    sector [bucket], none otherwise. *)
Definition nan_row (assets : list string) (corr_matrix : DataFrame)
    (cat_map : gmap string string) (bucket : string) (p : nat * nat)
  : option Entry :=
  a ← assets !! p.1;
  b ← assets !! p.2;
  match iloc corr_matrix p.1 p.2 with
  | Ok v =>
      if decide (PrimFloat.is_nan v = true ∧ same_sector cat_map a b ∧
                 sector_of cat_map a = bucket)
      then Some (nan_entry a b) else None
  | Raise _ => None
  end.

(** The matrix has at least as many rows as there are labels, and every row
    at least as many cells. *)
Definition at_least (assets : list string) (corr_matrix : DataFrame) : Prop :=
  length assets ≤ length (values corr_matrix) ∧
  Forall (λ row, length assets ≤ length row) (values corr_matrix).

(** A row as the single-file version writes it: the row of the package with
    the similarity computed by numpy, that is by the C [pow]. *)
Definition numpy_row `{Libm} (e : Entry) : Entry :=
  mkEntry (pair_label e) (correlation e)
          (libm_pow (correlation e) 2 * 100)%float
          (interpretation e) (tag e).

(** The buckets of the package as the single-file version writes them. *)
Definition numpy_rows `{Libm} (grouped : gmap string (list Entry))
  : gmap string (list Entry) :=
  (λ rows : list Entry, numpy_row <$> rows) <$> grouped.

(** ** Vocabulary of the correlation engine *)

(** The cell of a frame at row [t] and column [c]. *)
Definition cell (df : DataFrame) (t c : nat) : float :=
  default nan (row ← values df !! t; row !! c).

(** Every cell of the frame is not-a-number. *)
Definition all_nan (df : DataFrame) : Prop :=
  Forall (Forall (λ v, v = nan)) (values df).

Section engine.
Context `{Pandas}.

(** The prices that are divided: those of the table, each missing one
    replaced under pandas 2 by the last price above it. *)
Definition prices (data : DataFrame) : DataFrame :=
  if pct_change_pads then pandas.ffill data else data.

(** [r[t] = price[t] / price[t - W] - 1] for the instrument in column [c],
    not-a-number on the first [W] rows. *)
Definition change (W : nat) (data : DataFrame) (t c : nat) : float :=
  if (t <? W)%nat then nan
  else (cell (prices data) t c / cell (prices data) (t - W) c - 1)%float.

(** The row [t] survives when no instrument's change is not-a-number. *)
Definition survives (W : nat) (data : DataFrame) (t : nat) : bool :=
  forallb (λ c, negb (PrimFloat.is_nan (change W data t c)))
          (seq 0 (ncols data)).

Definition surviving (W : nat) (data : DataFrame) : list nat :=
  List.filter (survives W data) (seq 0 (nrows data)).

(** The changes of the instrument in column [c] over the surviving rows. *)
Definition series (W : nat) (data : DataFrame) (c : nat) : list float :=
  (λ t, change W data t c) <$> surviving W data.

End engine.



(** The running sums of [nancorr] for two series. *)
Definition sums (xs ys : list float) : pandas.welford :=
  foldl (λ w xy, pandas.welford_step w xy.1 xy.2)
        (pandas.mkWelford 0 0 0 0 0 0) (zip xs ys).



(** ** Inputs of the claims *)

(** The three correlations of the claim: 0.05 between the two stock indices,
    0.10 and 0.85 between a stock index and gold. *)
Definition claim_matrix : DataFrame :=
  mkDataFrame test_assets test_assets
    [[1; 0.05; 0.10]; [0.05; 1; 0.85]; [0.10; 0.85; 1]]%float.

(** The versions of pandas the engine is run under. *)
Definition engine_versions : list Pandas := [pandas2; pandas3].

(** ** Price tables for the engine *)

Definition seventeen_days : list string :=
  ["d01"; "d02"; "d03"; "d04"; "d05"; "d06";
   "d07"; "d08"; "d09"; "d10"; "d11"; "d12";
   "d13"; "d14"; "d15"; "d16"; "d17"].

(** Two days of two instruments. *)
Definition two_days : DataFrame :=
  mkDataFrame ["d01"; "d02"] ["A"; "B"] [[1; 2]; [3; 4]]%float.



(** Seventeen days of one instrument whose price jumps to 1e100 for a day. *)
Definition huge_swing : DataFrame :=
  mkDataFrame seventeen_days ["A"]
    [[1]; [1]; [1]; [1]; [1]; [1]; [1]; [1]; [1]; [1]; [1]; [1]; [1]; [1];
     [1]; [1e100]; [1]]%float.

(** * Properties *)

(** ** The order of the floats *)

Section float_order.
Import FloatOrder.

Lemma SFltb_key (f g : spec_float) :
  SFltb f g = true ↔
  match sf_key f, sf_key g with
  | Some a, Some b => key_lt a b
  | _, _ => False
  end.
Proof.
  unfold SFltb, SFcompare, key_lt.
  destruct f as [s| s | |s m e], g as [s'|s'| |s' m' e']; simpl;
    try destruct s; try destruct s'; simpl; try (split; [discriminate|lia]);
    try (split; [lia|discriminate]); try (split; [intros _; lia | done]);
    try tauto.
  - destruct (Z.compare_spec e e') as [->|?|?]; simpl.
    + change (PosDef.Pos.compare_cont Eq m m') with (m ?= m')%positive.
      destruct (Pos.compare_spec m m') as [->|?|?]; simpl;
        (split; [try discriminate; intros _; lia | try done; lia]).
    + split; [discriminate | lia].
    + split; [intros _; lia | done].
  - destruct (Z.compare_spec e e') as [->|?|?]; simpl.
    + change (PosDef.Pos.compare_cont Eq m m') with (m ?= m')%positive.
      destruct (Pos.compare_spec m m') as [->|?|?]; simpl;
        (split; [try discriminate; intros _; lia | try done; lia]).
    + split; [intros _; lia | done].
    + split; [discriminate | lia].
Qed.

Lemma SFleb_key (f g : spec_float) :
  SFleb f g = true ↔
  match sf_key f, sf_key g with
  | Some a, Some b => key_le a b
  | _, _ => False
  end.
Proof.
  unfold SFleb, SFcompare, key_le.
  destruct f as [s| s | |s m e], g as [s'|s'| |s' m' e']; simpl;
    try destruct s; try destruct s'; simpl; try (split; [discriminate|lia]);
    try (split; [lia|discriminate]); try (split; [intros _; lia | done]);
    try tauto.
  - destruct (Z.compare_spec e e') as [->|?|?]; simpl.
    + change (PosDef.Pos.compare_cont Eq m m') with (m ?= m')%positive.
      destruct (Pos.compare_spec m m') as [->|?|?]; simpl;
        (split; [try discriminate; intros _; lia | try done; lia]).
    + split; [discriminate | lia].
    + split; [intros _; lia | done].
  - destruct (Z.compare_spec e e') as [->|?|?]; simpl.
    + change (PosDef.Pos.compare_cont Eq m m') with (m ?= m')%positive.
      destruct (Pos.compare_spec m m') as [->|?|?]; simpl;
        (split; [try discriminate; intros _; lia | try done; lia]).
    + split; [intros _; lia | done].
    + split; [discriminate | lia].
Qed.

Lemma SFcompare_refl (f : spec_float) :
  SFcompare f f = match sf_key f with Some _ => Some Eq | None => None end.
Proof.
  destruct f as [s|s| |s m e]; try (by destruct s); try done.
  unfold SFcompare, sf_key. rewrite Z.compare_refl.
  change (PosDef.Pos.compare_cont Eq m m) with (m ?= m)%positive.
  rewrite Pos.compare_refl. by destruct s.
Qed.

Lemma ltb_flt (x y : float) : PrimFloat.ltb x y = true ↔ flt x y.
Proof. rewrite FloatAxioms.ltb_spec. apply SFltb_key. Qed.

Lemma leb_fle (x y : float) : PrimFloat.leb x y = true ↔ fle x y.
Proof. rewrite FloatAxioms.leb_spec. apply SFleb_key. Qed.

Lemma ltb_not_flt (x y : float) : PrimFloat.ltb x y = false ↔ ¬ flt x y.
Proof. rewrite <- ltb_flt. by destruct (PrimFloat.ltb x y). Qed.

Lemma leb_not_fle (x y : float) : PrimFloat.leb x y = false ↔ ¬ fle x y.
Proof. rewrite <- leb_fle. by destruct (PrimFloat.leb x y). Qed.

Lemma is_nan_fkey (x : float) : PrimFloat.is_nan x = true ↔ fkey x = None.
Proof.
  unfold PrimFloat.is_nan, fkey. rewrite FloatAxioms.eqb_spec. unfold SFeqb.
  rewrite SFcompare_refl. by destruct (sf_key (Prim2SF x)).
Qed.

Lemma not_nan_fkey (x : float) :
  PrimFloat.is_nan x = false ↔ ∃ k, fkey x = Some k.
Proof.
  pose proof (is_nan_fkey x) as Hx.
  destruct (PrimFloat.is_nan x), (fkey x) as [k|]; split; try done; eauto.
  - intros _. by destruct Hx as [Hx _]; specialize (Hx eq_refl).
  - intros [? ?]; done.
  - intros _. by destruct Hx as [_ Hx]; specialize (Hx eq_refl).
Qed.

End float_order.

(** Turns the comparisons of the context into inequalities between keys,
    evaluates the keys of the constants and leaves linear arithmetic. *)
Ltac float_keys :=
  repeat match goal with
  | H : (_ && _) = true |- _ => apply andb_true_iff in H; destruct H
  | H : (_ && _) = false |- _ => apply andb_false_iff in H; destruct H
  | H : PrimFloat.leb _ _ = true |- _ => apply leb_fle in H
  | H : PrimFloat.leb _ _ = false |- _ => apply leb_not_fle in H
  | H : PrimFloat.ltb _ _ = true |- _ => apply ltb_flt in H
  | H : PrimFloat.ltb _ _ = false |- _ => apply ltb_not_flt in H
  | H : PrimFloat.is_nan _ = false |- _ => apply not_nan_fkey in H; destruct H
  | H : PrimFloat.is_nan _ = true |- _ => apply is_nan_fkey in H
  end;
  unfold FloatOrder.fle, FloatOrder.flt in *;
  repeat match goal with
  | H : context [FloatOrder.fkey ?c] |- _ =>
      tryif is_var c then fail else
        let k := eval vm_compute in (FloatOrder.fkey c) in
        change (FloatOrder.fkey c) with k in H
  | |- context [FloatOrder.fkey ?c] =>
      tryif is_var c then fail else
        let k := eval vm_compute in (FloatOrder.fkey c) in
        change (FloatOrder.fkey c) with k
  end.

Ltac float_order :=
  float_keys;
  repeat match goal with
  | H : FloatOrder.fkey ?v = _ |- _ => rewrite H in *; clear H
  end;
  repeat match goal with
  | |- context [FloatOrder.fkey ?v] =>
      is_var v; destruct (FloatOrder.fkey v) as [[[? ?] ?]|]
  | H : context [FloatOrder.fkey ?v] |- _ =>
      is_var v; destruct (FloatOrder.fkey v) as [[[? ?] ?]|]
  end;
  unfold FloatOrder.key_le, FloatOrder.key_lt in *; cbn [fst snd] in *;
  first [done | lia].

(** Closes an equation between closed terms by evaluation. *)
Ltac by_evaluation :=
  lazymatch goal with
  | |- _ = ?r => vm_cast_no_check (eq_refl r)
  end.

(** ** classify_correlation *)

Ltac classify_ladder :=
  unfold classify_correlation;
  cbv [TWINS_THRESHOLD MODERATE_POS_THRESHOLD INDEPENDENT_LOW INDEPENDENT_HIGH
       WEAK_NEG_THRESHOLD MIRROR_THRESHOLD];
  repeat match goal with
  | |- context [if ?b then _ else _] => destruct b eqn:?
  end;
  first [reflexivity | exfalso; float_order].

Lemma ladder_exhaustive (v : float) :
  PrimFloat.is_nan v = false → ladder_case v.
Proof.
  intros Hnan. unfold ladder_case.
  destruct (0.80 <=? v)%float eqn:E1; [by left|right].
  destruct (0.50 <=? v)%float eqn:E2.
  { left. split; [done|]. apply ltb_flt. float_order. }
  right.
  destruct (v <=? -0.80)%float eqn:E3; [by do 3 right; left|].
  destruct (v <=? -0.50)%float eqn:E4.
  { do 2 right; left. split; [|done]. apply ltb_flt. float_order. }
  destruct (v <? -0.20)%float eqn:E5.
  { right; left. split; [|done]. apply ltb_flt. float_order. }
  destruct (v <=? 0.20)%float eqn:E6.
  { left. split; [|done]. apply leb_fle. float_order. }
  do 4 right. split; apply ltb_flt; float_order.
Qed.

(** C1. For every float [v], [classify_correlation v] is the pair of the
    first row of the ladder that [v] satisfies: [v >= 0.80] gives pos_strong,
    [0.50 <= v < 0.80] pos_mod, [-0.20 <= v <= 0.20] null,
    [-0.50 < v < -0.20] neg_weak, [-0.80 < v <= -0.50] neg_mod,
    [v <= -0.80] neg_strong and [0.20 < v < 0.50] weak; every value that is
    a number satisfies one of the seven rows, so "otherwise" is the last one;
    the boundaries 0.80, 0.50, 0.20 and -0.80 fall in pos_strong, pos_mod,
    null and neg_strong. *)
Theorem classify_correlation_ladder (v : float) :
  ((0.80 <=? v)%float = true →
     classify_correlation v = ("Twins (High Risk)", "pos_strong")) ∧
  ((0.50 <=? v)%float = true → (v <? 0.80)%float = true →
     classify_correlation v = ("Moderate Positive", "pos_mod")) ∧
  ((-0.20 <=? v)%float = true → (v <=? 0.20)%float = true →
     classify_correlation v = ("Independent (Diversify)", "null")) ∧
  ((-0.50 <? v)%float = true → (v <? -0.20)%float = true →
     classify_correlation v = ("Weak Inverse", "neg_weak")) ∧
  ((-0.80 <? v)%float = true → (v <=? -0.50)%float = true →
     classify_correlation v = ("Moderate Inverse", "neg_mod")) ∧
  ((v <=? -0.80)%float = true →
     classify_correlation v = ("Mirror (Hedging)", "neg_strong")) ∧
  ((0.20 <? v)%float = true → (v <? 0.50)%float = true →
     classify_correlation v = ("Weak Positive / Noise", "weak")) ∧
  (PrimFloat.is_nan v = false → ladder_case v) ∧
  classify_correlation 0.80 = ("Twins (High Risk)", "pos_strong") ∧
  classify_correlation 0.50 = ("Moderate Positive", "pos_mod") ∧
  classify_correlation 0.20 = ("Independent (Diversify)", "null") ∧
  classify_correlation (-0.80) = ("Mirror (Hedging)", "neg_strong").
Proof.
  split_and!; try (vm_compute; reflexivity); try apply ladder_exhaustive;
    intros; classify_ladder.
Qed.

Lemma classify_correlation_ladder_witness :
  (0.50 <=? 0.65)%float = true ∧ (0.65 <? 0.80)%float = true ∧
  classify_correlation 0.65 = ("Moderate Positive", "pos_mod").
Proof.
  split; [reflexivity|]. split; [reflexivity|].
  apply (proj1 (proj2 (classify_correlation_ladder 0.65))); reflexivity.
Defined.

(** The interior points that the specification lists next to the
    boundaries. *)
Example classify_near_boundaries :
  (classify_correlation 0.7999).2 = "pos_mod" ∧
  (classify_correlation (-0.7999)).2 = "neg_mod" ∧
  (classify_correlation 0.2001).2 = "weak" ∧
  (classify_correlation 0.4999).2 = "weak" ∧
  (classify_correlation (-0.20)).2 = "null" ∧
  (classify_correlation (-0.50)).2 = "neg_mod".
Proof. vm_compute. repeat split. Qed.

(** C8. [classify_correlation] returns on every float, inside or outside
    [-1, 1], infinite or not a number: the result is one pair whose tag is
    one of the seven tags; every value above 1 is pos_strong and every value
    below -1 is neg_strong. *)
Theorem classify_correlation_total (v : float) :
  (∃ label tag, classify_correlation v = (label, tag) ∧ tag ∈ TAGS) ∧
  ((1 <? v)%float = true →
     classify_correlation v = ("Twins (High Risk)", "pos_strong")) ∧
  ((v <? -1)%float = true →
     classify_correlation v = ("Mirror (Hedging)", "neg_strong")).
Proof.
  split; [|split; intros; classify_ladder].
  unfold classify_correlation.
  repeat match goal with
  | |- context [if ?b then _ else _] => destruct b
  end; eexists _, _; (split; [reflexivity|]); unfold TAGS; set_solver.
Qed.

Lemma classify_correlation_total_witness :
  (1 <? 1.0000000000000002)%float = true ∧
  classify_correlation 1.0000000000000002 = ("Twins (High Risk)", "pos_strong").
Proof.
  split; [reflexivity|].
  apply (proj1 (proj2 (classify_correlation_total 1.0000000000000002))).
  reflexivity.
Defined.

(** ** build_category_map *)

Lemma append_cons (x : ascii) (a b : string) :
  String x a +:+ b = String x (a +:+ b).
Proof. reflexivity. Qed.

Lemma prefix_iff (p l : string) :
  String.prefix p l = true ↔ ∃ rest, l = p +:+ rest.
Proof.
  revert l. induction p as [|a p IH]; intros l.
  - destruct l; cbn [String.prefix]; split; eauto.
  - destruct l as [|c l]; cbn [String.prefix].
    + split; [done | intros [rest Hr]; by rewrite append_cons in Hr].
    + destruct (Ascii.ascii_dec a c) as [<-|Hc].
      * rewrite IH. split; intros [rest Hr]; exists rest.
        -- by rewrite Hr.
        -- rewrite append_cons in Hr. by injection Hr.
      * split; [done | intros [rest Hr]].
        rewrite append_cons in Hr. injection Hr. congruence.
Qed.

Lemma append_assoc (a b c : string) : (a +:+ b) +:+ c = a +:+ (b +:+ c).
Proof.
  induction a as [|x a IH]; [done|]. rewrite !append_cons. by f_equal.
Qed.

Lemma ticker_matches_spec (p l : string) :
  ticker_matches p l = true ↔ l = p ∨ ∃ rest, l = p +:+ " " +:+ rest.
Proof.
  unfold ticker_matches.
  rewrite orb_true_iff, prefix_iff, String.eqb_eq.
  split.
  - intros [[rest Hr]|?]; [right; exists rest | by left].
    by rewrite Hr, append_assoc.
  - intros [?|[rest Hr]]; [by right | left; exists rest].
    by rewrite Hr, append_assoc.
Qed.

Lemma first_token_nospace (p : string) :
  nospace p = true → first_token p = p.
Proof.
  induction p as [|a p IH]; [done|]. cbn [nospace first_token].
  intros [Ha Hp]%andb_true_iff.
  destruct (Ascii.eqb a " "%char); [done|]. by rewrite IH.
Qed.

Lemma first_token_app (p rest : string) :
  nospace p = true → first_token (p +:+ " " +:+ rest) = p.
Proof.
  induction p as [|a p IH]; [done|].
  rewrite (append_cons a). cbn [nospace first_token].
  intros [Ha Hp]%andb_true_iff.
  destruct (Ascii.eqb a " "%char); [done|]. by rewrite IH.
Qed.

Lemma first_token_split (l : string) :
  l = first_token l ∨ ∃ rest, l = first_token l +:+ " " +:+ rest.
Proof.
  induction l as [|c l IH]; [by left|]. cbn [first_token].
  destruct (Ascii.eqb_spec c " "%char) as [->|Hc].
  - right. by exists l.
  - destruct IH as [IH|[rest IH]]; [left | right; exists rest];
      rewrite ?(append_cons c); by rewrite <- IH.
Qed.

Lemma ticker_matches_first_token (p l : string) :
  nospace p = true → ticker_matches p l = true ↔ first_token l = p.
Proof.
  intros Hp. rewrite ticker_matches_spec. split.
  - intros [->|[rest ->]];
      [by apply first_token_nospace | by apply first_token_app].
  - intros <-. apply first_token_split.
Qed.

Lemma scan_assets_lookup (cat p : string) (assets : list string)
    (cat_map : gmap string string) (l : string) :
  scan_assets cat p assets cat_map !! l =
  if bool_decide (l ∈ assets) && ticker_matches p l then Some cat
  else cat_map !! l.
Proof.
  unfold scan_assets. revert cat_map.
  induction assets as [|a assets IH]; intros cat_map; simpl; [done|].
  rewrite IH. destruct (decide (l = a)) as [->|Hne].
  - assert (bool_decide (a ∈ a :: assets) = true) as ->
      by (apply bool_decide_eq_true_2; constructor).
    simpl. destruct (ticker_matches p a) eqn:Hm.
    + rewrite andb_true_r, lookup_insert_eq. by destruct (bool_decide _).
    + by rewrite andb_false_r.
  - assert (bool_decide (l ∈ a :: assets) = bool_decide (l ∈ assets)) as ->
      by (apply bool_decide_ext; rewrite elem_of_cons; tauto).
    destruct (bool_decide (l ∈ assets) && ticker_matches p l); [done|].
    destruct (ticker_matches p a); [by rewrite lookup_insert_ne | done].
Qed.

Lemma scan_tickers_lookup (cat : string) (tickers assets : list string)
    (cat_map : gmap string string) (l : string) :
  scan_tickers cat tickers assets cat_map !! l =
  if bool_decide (l ∈ assets) && existsb (λ p, ticker_matches p l) tickers
  then Some cat else cat_map !! l.
Proof.
  unfold scan_tickers. revert cat_map.
  induction tickers as [|p tickers IH]; intros cat_map; simpl.
  - by rewrite andb_false_r.
  - rewrite IH, scan_assets_lookup.
    destruct (bool_decide (l ∈ assets)); simpl; [|done].
    destruct (ticker_matches p l); simpl; [|done].
    by destruct (existsb _ tickers).
Qed.

Lemma scan_sectors_lookup (sectors : list (string * list string))
    (assets : list string) (cat_map : gmap string string) (l : string) :
  scan_sectors sectors assets cat_map !! l =
  if bool_decide (l ∈ assets) then sector_of_label sectors l (cat_map !! l)
  else cat_map !! l.
Proof.
  unfold scan_sectors, sector_of_label. revert cat_map.
  induction sectors as [|[cat tickers] sectors IH]; intros cat_map; simpl.
  - by destruct (bool_decide _).
  - rewrite IH, scan_tickers_lookup.
    by destruct (bool_decide (l ∈ assets)).
Qed.

Lemma existsb_ticker (tickers : list string) (l : string) :
  existsb (λ p, ticker_matches p l) tickers = true ↔
  ∃ p, p ∈ tickers ∧ ticker_matches p l = true.
Proof.
  rewrite existsb_exists.
  split; intros (p & Hp & Hm); exists p; by rewrite ?list_elem_of_In in *.
Qed.

Lemma sector_of_label_sound (sectors : list (string * list string))
    (l : string) (acc : option string) (s : string) :
  sector_of_label sectors l acc = Some s →
  acc = Some s ∨
  ∃ tickers, (s, tickers) ∈ sectors ∧
             existsb (λ p, ticker_matches p l) tickers = true.
Proof.
  unfold sector_of_label. revert acc.
  induction sectors as [|[cat tickers] sectors IH]; intros acc; simpl.
  - by left.
  - intros [Hacc|(t & Hin & Hm)]%IH.
    + destruct (existsb _ tickers) eqn:Hm; [|by left].
      right. exists tickers. simplify_eq. split; [constructor | done].
    + right. exists t. split; [by constructor | done].
Qed.

Lemma sector_of_label_complete (sectors : list (string * list string))
    (l : string) (acc : option string) (s : string) :
  (∃ ct, ct ∈ sectors ∧ existsb (λ p, ticker_matches p l) ct.2 = true) →
  (∀ ct, ct ∈ sectors → existsb (λ p, ticker_matches p l) ct.2 = true →
         ct.1 = s) →
  sector_of_label sectors l acc = Some s.
Proof.
  unfold sector_of_label.
  induction sectors as [|ct sectors IH] using rev_ind.
  - intros (ct & Hin & _). by apply elem_of_nil in Hin.
  - intros (ct' & Hin & Hm) Huniq. rewrite foldl_app. simpl.
    destruct (existsb _ ct.2) eqn:Hct.
    + f_equal. apply Huniq; [|done]. apply elem_of_app. right. constructor.
    + apply IH.
      * apply elem_of_app in Hin as [Hin|Hin%list_elem_of_singleton].
        -- by exists ct'.
        -- subst. congruence.
      * intros ct'' Hin'' Hm''. apply Huniq; [|done].
        apply elem_of_app. by left.
Qed.

Lemma SECTORS_nospace :
  Forall (λ ct : string * list string,
            Forall (λ p, nospace p = true) ct.2) SECTORS.
Proof. repeat constructor. Qed.

Lemma SECTORS_disjoint :
  Forall (λ ct1 : string * list string,
    Forall (λ ct2 : string * list string,
      Forall (λ p, p ∈ ct2.2 → ct1.1 = ct2.1) ct1.2) SECTORS) SECTORS.
Proof. compute_done. Qed.

Lemma SECTORS_unique (l : string) (ct1 ct2 : string * list string) :
  ct1 ∈ SECTORS → ct2 ∈ SECTORS →
  existsb (λ p, ticker_matches p l) ct1.2 = true →
  existsb (λ p, ticker_matches p l) ct2.2 = true →
  ct1.1 = ct2.1.
Proof.
  intros H1 H2 (p1 & Hp1 & Hm1)%existsb_ticker (p2 & Hp2 & Hm2)%existsb_ticker.
  pose proof SECTORS_nospace as Hns. rewrite Forall_forall in Hns.
  pose proof (Hns _ H1) as Hns1. pose proof (Hns _ H2) as Hns2.
  rewrite Forall_forall in Hns1, Hns2.
  apply ticker_matches_first_token in Hm1; [|by apply Hns1].
  apply ticker_matches_first_token in Hm2; [|by apply Hns2].
  pose proof SECTORS_disjoint as Hd. rewrite Forall_forall in Hd.
  specialize (Hd _ H1). rewrite Forall_forall in Hd.
  specialize (Hd _ H2). rewrite Forall_forall in Hd.
  apply (Hd p1 Hp1). congruence.
Qed.

Lemma build_category_map_lookup (assets : list string) (label s : string) :
  build_category_map assets !! label = Some s ↔
  label ∈ assets ∧
  ∃ tickers p, (s, tickers) ∈ SECTORS ∧ p ∈ tickers ∧
               (label = p ∨ ∃ rest, label = p +:+ " " +:+ rest).
Proof.
  unfold build_category_map. rewrite scan_sectors_lookup, lookup_empty.
  case_bool_decide as Hin.
  - split.
    + intros [?|(tickers & Ht & (p & Hp & Hm)%existsb_ticker)]%sector_of_label_sound;
        [done|].
      split; [done|]. exists tickers, p. by rewrite <- ticker_matches_spec.
    + intros (_ & tickers & p & Ht & Hp & Hm%ticker_matches_spec).
      assert (existsb (λ p, ticker_matches p label) tickers = true) as Hex
        by (apply existsb_ticker; eauto).
      apply sector_of_label_complete.
      * by exists (s, tickers).
      * intros ct Hct Hm'.
        by apply (SECTORS_unique label ct (s, tickers)).
  - split; [done | by intros [? _]].
Qed.

(** C7. [build_category_map] maps a label of the list to the sector [s]
    exactly when the label equals one of the tickers of [s] or starts with
    it followed by a space; a label that matches no ticker is absent.  On
    the labels of the test, the result is the three expected bindings, and
    "Unknown Asset" is absent. *)
Theorem build_category_map_spec (assets : list string) (label s : string) :
  (build_category_map assets !! label = Some s ↔
   label ∈ assets ∧
   ∃ tickers p, (s, tickers) ∈ SECTORS ∧ p ∈ tickers ∧
                (label = p ∨ ∃ rest, label = p +:+ " " +:+ rest)) ∧
  build_category_map ["ES (S&P 500)"; "BTC"; "GC (Gold)"; "Unknown Asset"] =
    <["ES (S&P 500)" := "Stock Indices"]>
      (<["BTC" := "Crypto"]> (<["GC (Gold)" := "Metals"]> ∅)) ∧
  build_category_map ["ES (S&P 500)"; "BTC"; "GC (Gold)"; "Unknown Asset"]
    !! "Unknown Asset" = None.
Proof.
  split; [apply build_category_map_lookup | split; vm_compute; reflexivity].
Qed.

(** The map that [build_category_map] returns only names sectors of the
    taxonomy, which are buckets of the grouped result. *)
Lemma build_category_map_known (assets labels : list string) :
  sectors_known labels (build_category_map assets).
Proof.
  apply Forall_forall. intros a _. unfold sector_of.
  destruct (build_category_map assets !! a) as [s|] eqn:Hs; [|by left].
  apply build_category_map_lookup in Hs as (_ & tickers & _ & Hin & _).
  right. simpl. unfold bucket_names. apply elem_of_app. left.
  apply list_elem_of_fmap. by exists (s, tickers).
Qed.

(** ** group_correlations *)

Lemma elem_of_all_pairs (n i j : nat) : (i, j) ∈ all_pairs n ↔ i < j < n.
Proof.
  unfold all_pairs. rewrite list_elem_of_bind. split.
  - intros (i' & Hj & Hi). apply list_elem_of_fmap in Hj as (j' & [= -> ->] & Hj).
    apply elem_of_seq in Hj, Hi. lia.
  - intros Hij. exists i. split; [|apply elem_of_seq; lia].
    apply list_elem_of_fmap. exists j. split; [done|]. apply elem_of_seq. lia.
Qed.

Lemma NoDup_all_pairs (n : nat) : NoDup (all_pairs n).
Proof.
  unfold all_pairs. apply NoDup_bind; [| |apply NoDup_seq].
  - intros i1 i2 [i j] _ _ (j1 & [= -> ->] & _)%list_elem_of_fmap
      (j2 & [= -> _] & _)%list_elem_of_fmap. done.
  - intros i _. apply NoDup_fmap_2; [|apply NoDup_seq]. by intros ?? [= ->].
Qed.

Lemma for_each_app {A S} (xs ys : list A) (body : A → S → result S) (s : S) :
  for_each (xs ++ ys) body s = s' ← for_each xs body s; for_each ys body s'.
Proof.
  revert s. induction xs as [|x xs IH]; intros s; simpl; [done|].
  destruct (body x s) as [s'|e]; simpl; [apply IH | done].
Qed.

Lemma for_each_fmap {A B S} (f : A → B) (xs : list A)
    (body : B → S → result S) (s : S) :
  for_each (f <$> xs) body s = for_each xs (λ x, body (f x)) s.
Proof.
  revert s. induction xs as [|x xs IH]; intros s; simpl; [done|].
  destruct (body (f x) s) as [s'|e]; simpl; [apply IH | done].
Qed.

Lemma for_each_bind {A B S} (f : A → list B) (xs : list A)
    (body : B → S → result S) (s : S) :
  for_each (xs ≫= f) body s = for_each xs (λ x s, for_each (f x) body s) s.
Proof.
  revert s. induction xs as [|x xs IH]; intros s; [done|].
  change ((x :: xs) ≫= f) with (f x ++ xs ≫= f).
  rewrite for_each_app. simpl.
  destruct (for_each (f x) body s) as [s'|e]; simpl; [apply IH | done].
Qed.

Lemma for_each_ext {A S} (xs : list A) (body1 body2 : A → S → result S) (s : S) :
  (∀ x s, x ∈ xs → body1 x s = body2 x s) →
  for_each xs body1 s = for_each xs body2 s.
Proof.
  revert s. induction xs as [|x xs IH]; intros s Hext; simpl; [done|].
  rewrite (Hext x s) by constructor.
  destruct (body2 x s) as [s'|e]; simpl; [|done].
  apply IH. intros y s'' Hy. apply Hext. by constructor.
Qed.

Lemma group_correlations_flat `{Libm} (assets : list string)
    (corr_matrix : DataFrame) (cat_map : gmap string string) :
  group_correlations assets corr_matrix cat_map =
  for_each (all_pairs (length assets))
    (λ p grouped, pair_step assets corr_matrix cat_map p.1 p.2 grouped)
    initial_grouped.
Proof.
  unfold group_correlations, all_pairs. rewrite for_each_bind.
  apply for_each_ext. intros i g _. by rewrite for_each_fmap.
Qed.

Lemma iloc_raise (df : DataFrame) (i j : nat) (e : exn) :
  iloc df i j = Raise e → e = IndexError.
Proof.
  unfold iloc, list_get. destruct (values df !! i) as [row|]; simpl.
  - destruct (row !! j); [done | by intros [= <-]].
  - by intros [= <-].
Qed.

Lemma omap_cons_eq {A B} (f : A → option B) (x : A) (xs : list A) :
  omap f (x :: xs) =
  match f x with Some y => y :: omap f xs | None => omap f xs end.
Proof. reflexivity. Qed.

Lemma initial_grouped_lookup (bucket : string) :
  initial_grouped !! bucket =
  if bool_decide (bucket ∈ bucket_names) then Some [] else None.
Proof.
  unfold initial_grouped, bucket_names, INTER_MARKET, SECTORS.
  cbn [foldl fmap list_fmap fst app].
  repeat (rewrite lookup_insert; destruct (decide _) as [<-|?];
          [vm_compute; reflexivity|]).
  rewrite lookup_empty, bool_decide_eq_false_2; [done|].
  rewrite !elem_of_cons, elem_of_nil. intuition congruence.
Qed.

Section grouping_facts.
Context `{Libm}.
Context (assets : list string) (corr_matrix : DataFrame)
        (cat_map : gmap string string).

Abbreviation step :=
  (λ (p : nat * nat) grouped,
     pair_step assets corr_matrix cat_map p.1 p.2 grouped).

Lemma pair_step_raise (i j : nat) (a b : string) (e : exn)
    (grouped : gmap string (list Entry)) :
  assets !! i = Some a → assets !! j = Some b →
  iloc corr_matrix i j = Raise e →
  pair_step assets corr_matrix cat_map i j grouped = Raise IndexError.
Proof.
  intros Ha Hb Hv. unfold pair_step, list_get. rewrite Ha, Hb. simpl.
  rewrite Hv. simpl. by rewrite (iloc_raise _ _ _ _ Hv).
Qed.

Lemma pair_step_placed (i j : nat) (a b : string) (v sq : float)
    (grouped : gmap string (list Entry)) :
  assets !! i = Some a → assets !! j = Some b →
  iloc corr_matrix i j = Ok v → float_pow2 v = Ok sq →
  pair_step assets corr_matrix cat_map i j grouped =
  match bucket_of cat_map a b (classify_correlation v).2 with
  | Some bucket => append_to bucket (entry_of a b v sq) grouped
  | None => Ok grouped
  end.
Proof.
  intros Ha Hb Hv Hsq. unfold pair_step, list_get. rewrite Ha, Hb. simpl.
  rewrite Hv. simpl. rewrite Hsq. simpl.
  unfold bucket_of, entry_of, sector_of.
  destruct (classify_correlation v) as [tipo tag]. cbn [fst snd existsb].
  destruct (String.eqb_spec (default "Others" (cat_map !! a))
                            (default "Others" (cat_map !! b))) as [Hab|Hab];
    destruct (String.eqb_spec (default "Others" (cat_map !! a)) "Others")
      as [Ho|Ho]; cbn [andb negb];
    (case_decide as Hd; [try done; exfalso; tauto|]);
    destruct (String.eqb_spec tag "weak"), (String.eqb_spec tag "null");
    cbn [orb negb]; case_decide; try done; exfalso; tauto.
Qed.

Lemma bucket_of_known (a b tag bucket : string) :
  sector_of cat_map a = "Others" ∨ sector_of cat_map a ∈ bucket_names →
  bucket_of cat_map a b tag = Some bucket → bucket ∈ bucket_names.
Proof.
  intros Ha. unfold bucket_of. repeat case_decide; intros [= <-].
  - destruct Ha; [tauto | done].
  - unfold bucket_names. apply elem_of_app. right. constructor.
Qed.

Lemma for_each_pairs (ps : list (nat * nat))
    (grouped : gmap string (list Entry)) :
  (∀ p, p ∈ ps → p.1 < p.2 < length assets) →
  Forall (λ p, ∀ v, iloc corr_matrix p.1 p.2 = Ok v → is_Ok (float_pow2 v)) ps →
  sectors_known assets cat_map →
  (∀ bucket, bucket ∈ bucket_names → is_Some (grouped !! bucket)) →
  (Forall (λ p, is_Ok (iloc corr_matrix p.1 p.2)) ps →
   ∃ grouped',
     for_each ps step grouped = Ok grouped' ∧
     ∀ bucket,
       grouped' !! bucket =
       (λ items, items ++ omap (placed_in assets corr_matrix cat_map bucket) ps)
         <$> grouped !! bucket) ∧
  (¬ Forall (λ p, is_Ok (iloc corr_matrix p.1 p.2)) ps →
   for_each ps step grouped = Raise IndexError).
Proof.
  intros Hrange Hsq Hknown. revert grouped Hrange Hsq.
  induction ps as [|[i j] ps IH]; intros grouped Hrange Hsq Hkeys.
  { split.
    - intros _. exists grouped. split; [done|]. intros bucket.
      destruct (grouped !! bucket); simpl; [by rewrite app_nil_r | done].
    - intros Hn. destruct Hn. constructor. }
  apply Forall_cons in Hsq as [Hsq_p Hsq].
  assert (i < j < length assets) as Hij by (apply (Hrange (i, j)); constructor).
  assert (∀ p, p ∈ ps → p.1 < p.2 < length assets) as Hrange'
    by (intros p Hp; apply Hrange; by constructor).
  destruct (lookup_lt_is_Some_2 assets i) as [a Ha]; [lia|].
  destruct (lookup_lt_is_Some_2 assets j) as [b Hb]; [lia|].
  assert (sector_of cat_map a = "Others" ∨ sector_of cat_map a ∈ bucket_names)
    as Hka.
  { unfold sectors_known in Hknown. rewrite Forall_forall in Hknown.
    apply Hknown. by apply list_elem_of_lookup_2 in Ha. }
  cbn [for_each fst snd]. simpl in Hsq_p.
  destruct (iloc corr_matrix i j) as [v|e] eqn:Hv.
  2:{ rewrite (pair_step_raise i j a b e) by done. split; [|done].
      intros [[? Hx] _]%Forall_cons. simpl in Hx. congruence. }
  destruct (Hsq_p v eq_refl) as [sq Hsqv].
  rewrite (pair_step_placed i j a b v sq) by done.
  assert (placement assets corr_matrix cat_map (i, j) =
          bucket ← bucket_of cat_map a b (classify_correlation v).2;
          Some (bucket, entry_of a b v sq)) as Hpl.
  { unfold placement. cbn [fst snd]. rewrite Ha, Hb. simpl.
    by rewrite Hv, Hsqv. }
  destruct (bucket_of cat_map a b (classify_correlation v).2)
    as [bucket0|] eqn:Hb0.
  - pose proof (bucket_of_known _ _ _ _ Hka Hb0) as Hin0.
    destruct (Hkeys _ Hin0) as [items0 Hitems0].
    unfold append_to, dict_get. rewrite Hitems0.
    cbn [mbind result_bind].
    set (grouped1 := <[bucket0 := items0 ++ [entry_of a b v sq]]> grouped).
    destruct (IH grouped1 Hrange' Hsq) as [IH1 IH2].
    { intros bucket Hbk. unfold grouped1.
      destruct (decide (bucket0 = bucket)) as [->|Hne].
      - rewrite lookup_insert_eq. eauto.
      - rewrite lookup_insert_ne by done. by apply Hkeys. }
    split.
    + intros [_ Hok]%Forall_cons. destruct (IH1 Hok) as (g' & Hg' & Hlk).
      exists g'. split; [done|]. intros bucket. rewrite Hlk, omap_cons_eq.
      unfold placed_in at 2. rewrite Hpl. cbn [mbind option_bind fst snd].
      unfold grouped1.
      destruct (decide (bucket0 = bucket)) as [->|Hne].
      * rewrite lookup_insert_eq, Hitems0. simpl. by rewrite <- app_assoc.
      * by rewrite lookup_insert_ne by done.
    + intros Hn. apply IH2. intros Hok. apply Hn. constructor; [|done].
      simpl. rewrite Hv. by eexists.
  - destruct (IH grouped Hrange' Hsq Hkeys) as [IH1 IH2]. split.
    + intros [_ Hok]%Forall_cons. destruct (IH1 Hok) as (g' & Hg' & Hlk).
      exists g'. split; [done|]. intros bucket. rewrite Hlk, omap_cons_eq.
      unfold placed_in at 2. by rewrite Hpl.
    + intros Hn. apply IH2. intros Hok. apply Hn. constructor; [|done].
      simpl. rewrite Hv. by eexists.
Qed.

End grouping_facts.

Lemma square_over_covers (assets : list string) (corr_matrix : DataFrame) :
  square_over assets corr_matrix → covers assets corr_matrix.
Proof.
  intros ([Hlen Hrows] & Hr & Hc). unfold covers. apply Forall_forall.
  intros [i j] Hij%elem_of_all_pairs. cbn [fst snd].
  unfold iloc, list_get.
  destruct (lookup_lt_is_Some_2 (values corr_matrix) i) as [row Hrow];
    [lia|].
  rewrite Hrow. simpl. rewrite Forall_forall in Hrows.
  pose proof (Hrows row (list_elem_of_lookup_2 _ _ _ Hrow)) as Hlr.
  destruct (lookup_lt_is_Some_2 row j) as [v Hv]; [lia|].
  rewrite Hv. by eexists.
Qed.

Lemma group_correlations_cases `{Libm} (assets : list string)
    (corr_matrix : DataFrame) (cat_map : gmap string string) :
  squares_fit assets corr_matrix → sectors_known assets cat_map →
  (covers assets corr_matrix →
   grouped_as_specified assets corr_matrix cat_map) ∧
  (¬ covers assets corr_matrix →
   group_correlations assets corr_matrix cat_map = Raise IndexError).
Proof.
  intros Hsq Hknown.
  destruct (for_each_pairs assets corr_matrix cat_map
              (all_pairs (length assets)) initial_grouped) as [H1 H2];
    try done.
  - by intros [i j] Hp%elem_of_all_pairs.
  - intros bucket Hb. rewrite initial_grouped_lookup.
    rewrite bool_decide_eq_true_2 by done. eauto.
  - split.
    + intros Hc. destruct (H1 Hc) as (g & Hg & Hlk). exists g.
      split; [by rewrite group_correlations_flat|].
      intros bucket. rewrite Hlk, initial_grouped_lookup.
      by destruct (bool_decide _).
    + intros Hc. rewrite group_correlations_flat. by apply H2.
Qed.

Lemma is_nan_eq (v : float) : PrimFloat.is_nan v = true → v = nan.
Proof.
  intros Hv%is_nan_fkey. rewrite <- (SF2Prim_Prim2SF v).
  unfold FloatOrder.fkey in Hv.
  destruct (Prim2SF v) as [s|s| |s m e]; try done; by destruct s.
Qed.

Lemma float_pow2_raise `{Libm} (v : float) (e : exn) :
  float_pow2 v = Raise e → e = OverflowError.
Proof.
  unfold float_pow2.
  repeat match goal with
  | |- context [if ?b then _ else _] => destruct b
  end; intros [= <-]; done.
Qed.

Lemma bucket_of_cases (cat_map : gmap string string) (a b tag bucket : string) :
  bucket_of cat_map a b tag = Some bucket →
  (bucket = sector_of cat_map a ∧ sector_of cat_map a = sector_of cat_map b ∧
   bucket ≠ "Others") ∨
  (bucket = INTER_MARKET ∧ tag ≠ "weak" ∧ tag ≠ "null").
Proof.
  unfold bucket_of. repeat case_decide; intros [= <-]; [left | right]; tauto.
Qed.

Section grouping_results.
Context `{Libm}.
Context (assets : list string) (corr_matrix : DataFrame)
        (cat_map : gmap string string).

Abbreviation step' :=
  (λ (p : nat * nat) grouped,
     pair_step assets corr_matrix cat_map p.1 p.2 grouped).

Lemma pair_step_overflow (i j : nat) (a b : string) (v : float) (e : exn)
    (grouped : gmap string (list Entry)) :
  assets !! i = Some a → assets !! j = Some b →
  iloc corr_matrix i j = Ok v → float_pow2 v = Raise e →
  pair_step assets corr_matrix cat_map i j grouped = Raise OverflowError.
Proof.
  intros Ha Hb Hv He. unfold pair_step, list_get. rewrite Ha, Hb. simpl.
  rewrite Hv. simpl. rewrite He. simpl. by rewrite (float_pow2_raise _ _ He).
Qed.

(** What a run of the loop over the positions [ps] leaves, from the dict
    [grouped]: the rows appended to each key when it returns, and the key
    that was missing when it raises [KeyError]. *)
Lemma for_each_pairs_result (ps : list (nat * nat))
    (grouped : gmap string (list Entry)) :
  (∀ p, p ∈ ps → p.1 < p.2 < length assets) →
  match for_each ps step' grouped with
  | Ok grouped' =>
      ∀ bucket,
        grouped' !! bucket =
        (λ items, items ++ omap (placed_in assets corr_matrix cat_map bucket) ps)
          <$> grouped !! bucket
  | Raise (KeyError k) =>
      grouped !! k = None ∧
      (k = INTER_MARKET ∨
       k ≠ "Others" ∧ ∃ a, a ∈ assets ∧ cat_map !! a = Some k)
  | Raise _ => True
  end.
Proof.
  revert grouped. induction ps as [|[i j] ps IH]; intros grouped Hrange.
  { cbn [for_each]. intros bucket.
    destruct (grouped !! bucket); simpl; [by rewrite app_nil_r | done]. }
  assert (i < j < length assets) as Hij by (apply (Hrange (i, j)); constructor).
  assert (∀ p, p ∈ ps → p.1 < p.2 < length assets) as Hrange'
    by (intros p Hp; apply Hrange; by constructor).
  destruct (lookup_lt_is_Some_2 assets i) as [a Ha]; [lia|].
  destruct (lookup_lt_is_Some_2 assets j) as [b Hb]; [lia|].
  cbn [for_each fst snd].
  destruct (iloc corr_matrix i j) as [v|e] eqn:Hv.
  2:{ by rewrite (pair_step_raise assets corr_matrix cat_map i j a b e). }
  destruct (float_pow2 v) as [sq|e] eqn:Hsq.
  2:{ by rewrite (pair_step_overflow i j a b v e). }
  rewrite (pair_step_placed assets corr_matrix cat_map i j a b v sq) by done.
  assert (placement assets corr_matrix cat_map (i, j) =
          bucket ← bucket_of cat_map a b (classify_correlation v).2;
          Some (bucket, entry_of a b v sq)) as Hpl.
  { unfold placement. cbn [fst snd]. rewrite Ha, Hb. simpl.
    by rewrite Hv, Hsq. }
  destruct (bucket_of cat_map a b (classify_correlation v).2)
    as [bucket0|] eqn:Hb0.
  - unfold append_to, dict_get.
    destruct (grouped !! bucket0) as [items0|] eqn:Hitems0;
      cbn [mbind result_bind].
    + set (grouped1 := <[bucket0 := items0 ++ [entry_of a b v sq]]> grouped).
      specialize (IH grouped1 Hrange').
      destruct (for_each ps step' grouped1) as [g'|[|k|]]; try done.
      * intros bucket. rewrite IH, omap_cons_eq.
        unfold placed_in at 2. rewrite Hpl. cbn [mbind option_bind fst snd].
        unfold grouped1.
        destruct (decide (bucket0 = bucket)) as [->|Hne].
        -- rewrite lookup_insert_eq, Hitems0. simpl. by rewrite <- app_assoc.
        -- by rewrite lookup_insert_ne by done.
      * destruct IH as [Hk Hwho]. split; [|done].
        unfold grouped1 in Hk.
        destruct (decide (bucket0 = k)) as [->|Hne].
        -- by rewrite lookup_insert_eq in Hk.
        -- by rewrite lookup_insert_ne in Hk by done.
    + split; [done|].
      apply bucket_of_cases in Hb0 as [(Hs & _ & Ho)|(-> & _)]; [|by left].
      right. split; [done|]. exists a.
      split; [by apply list_elem_of_lookup_2 in Ha|].
      unfold sector_of in Hs. destruct (cat_map !! a); simpl in Hs; congruence.
  - cbn [mbind result_bind]. specialize (IH grouped Hrange').
    destruct (for_each ps step' grouped) as [g'|[|k|]]; try done.
    intros bucket. rewrite IH, omap_cons_eq.
    unfold placed_in at 2. by rewrite Hpl.
Qed.

End grouping_results.

Lemma group_correlations_result `{Libm} (assets : list string)
    (corr_matrix : DataFrame) (cat_map : gmap string string) :
  match group_correlations assets corr_matrix cat_map with
  | Ok grouped =>
      ∀ bucket,
        grouped !! bucket =
        if bool_decide (bucket ∈ bucket_names)
        then Some (omap (placed_in assets corr_matrix cat_map bucket)
                        (all_pairs (length assets)))
        else None
  | Raise (KeyError k) =>
      (k ∉ bucket_names) ∧ (k ≠ "Others") ∧
      (∃ a, a ∈ assets ∧ cat_map !! a = Some k)
  | Raise _ => True
  end.
Proof.
  rewrite group_correlations_flat.
  pose proof (for_each_pairs_result assets corr_matrix cat_map
                (all_pairs (length assets)) initial_grouped) as Hres.
  destruct (for_each _ _ initial_grouped) as [g|[|k|]]; try done.
  - intros bucket. rewrite Hres, initial_grouped_lookup.
    + by destruct (bool_decide _).
    + by intros [i j] Hp%elem_of_all_pairs.
  - destruct Hres as [Hk Hwho].
    { by intros [i j] Hp%elem_of_all_pairs. }
    rewrite initial_grouped_lookup in Hk.
    case_bool_decide as Hin; [done|]. split; [done|].
    destruct Hwho as [->|?]; [|done].
    exfalso. apply Hin. unfold bucket_names. apply elem_of_app. right.
    constructor.
Qed.

Lemma placed_in_inside `{Libm} (assets : list string) (corr_matrix : DataFrame)
    (cat_map : gmap string string) (i j : nat) (a b : string) (v sq : float)
    (bucket : string) :
  assets !! i = Some a → assets !! j = Some b →
  iloc corr_matrix i j = Ok v → float_pow2 v = Ok sq →
  placed_in assets corr_matrix cat_map bucket (i, j) =
  if decide (same_sector cat_map a b)
  then if decide (sector_of cat_map a = bucket)
       then Some (entry_of a b v sq) else None
  else if decide ((classify_correlation v).2 ≠ "weak" ∧
                  (classify_correlation v).2 ≠ "null")
       then if decide (INTER_MARKET = bucket)
            then Some (entry_of a b v sq) else None
       else None.
Proof.
  intros Ha Hb Hv Hsq. unfold placed_in, placement, bucket_of, same_sector.
  cbn [fst snd]. rewrite Ha, Hb. cbn [mbind option_bind].
  rewrite Hv, Hsq.
  repeat case_decide; cbn [mbind option_bind fst snd];
    repeat case_decide; done.
Qed.

Lemma same_sector_known (assets : list string) (cat_map : gmap string string)
    (i : nat) (a b : string) :
  sectors_known assets cat_map → assets !! i = Some a →
  same_sector cat_map a b → sector_of cat_map a ∈ bucket_names.
Proof.
  intros Hknown Ha [_ Ho]. unfold sectors_known in Hknown.
  rewrite Forall_forall in Hknown.
  destruct (Hknown a (list_elem_of_lookup_2 _ _ _ Ha)); done.
Qed.

Lemma INTER_MARKET_bucket : INTER_MARKET ∈ bucket_names.
Proof. unfold bucket_names. apply elem_of_app. right. constructor. Qed.

(** C2. On a square matrix over the labels and a category map whose sectors
    are sectors of the taxonomy, as the specification defines the category
    map and as [build_category_map] returns it (the squares of the entries
    not overflowing, as for every correlation): the positions enumerated are
    the [(i, j)] with [i < j], each once; the call returns; each bucket of
    the result lists the rows of the pairs placed in it; a pair of one
    sector other than "Others" has its row in the bucket of that sector
    whatever its tag; any other pair has its row in the mixed bucket when
    its tag is neither weak nor null, and in no bucket when it is.  So a
    pair of one sector at 0.05 is in the bucket of its sector, a pair of two
    sectors at 0.10 is in no bucket, and one at 0.85 is in the mixed
    bucket. *)
Theorem group_correlations_buckets `{Libm} (assets : list string)
    (corr_matrix : DataFrame) (cat_map : gmap string string) :
  square_over assets corr_matrix →
  squares_fit assets corr_matrix →
  sectors_known assets cat_map →
  NoDup (all_pairs (length assets)) ∧
  (∀ i j, (i, j) ∈ all_pairs (length assets) ↔ i < j < length assets) ∧
  ∃ grouped,
    group_correlations assets corr_matrix cat_map = Ok grouped ∧
    (∀ bucket,
       grouped !! bucket =
       if bool_decide (bucket ∈ bucket_names)
       then Some (omap (placed_in assets corr_matrix cat_map bucket)
                       (all_pairs (length assets)))
       else None) ∧
    (∀ i j a b,
       i < j → assets !! i = Some a → assets !! j = Some b →
       ∃ v sq,
         iloc corr_matrix i j = Ok v ∧ float_pow2 v = Ok sq ∧
         (same_sector cat_map a b →
          ∃ rows, grouped !! sector_of cat_map a = Some rows ∧
                  entry_of a b v sq ∈ rows) ∧
         (¬ same_sector cat_map a b →
          (classify_correlation v).2 ≠ "weak" →
          (classify_correlation v).2 ≠ "null" →
          ∃ rows, grouped !! INTER_MARKET = Some rows ∧
                  entry_of a b v sq ∈ rows) ∧
         (¬ same_sector cat_map a b →
          (classify_correlation v).2 = "weak" ∨
          (classify_correlation v).2 = "null" →
          ∀ bucket,
            placed_in assets corr_matrix cat_map bucket (i, j) = None)) ∧
    (∀ i j a b,
       i < j → assets !! i = Some a → assets !! j = Some b →
       (iloc corr_matrix i j = Ok 0.05%float → same_sector cat_map a b →
        ∃ rows r2,
          grouped !! sector_of cat_map a = Some rows ∧
          mkEntry (a +:+ " vs " +:+ b) 0.05 r2
                  "Independent (Diversify)" "null" ∈ rows) ∧
       (iloc corr_matrix i j = Ok 0.10%float → ¬ same_sector cat_map a b →
        ∀ bucket,
          placed_in assets corr_matrix cat_map bucket (i, j) = None) ∧
       (iloc corr_matrix i j = Ok 0.85%float → ¬ same_sector cat_map a b →
        ∃ rows r2,
          grouped !! INTER_MARKET = Some rows ∧
          mkEntry (a +:+ " vs " +:+ b) 0.85 r2
                  "Twins (High Risk)" "pos_strong" ∈ rows)).
Proof.
  intros Hsquare Hfit Hknown.
  split; [apply NoDup_all_pairs|]. split; [apply elem_of_all_pairs|].
  pose proof (square_over_covers _ _ Hsquare) as Hcov.
  destruct (proj1 (group_correlations_cases assets corr_matrix cat_map
                     Hfit Hknown) Hcov) as (grouped & Hg & Hlk).
  exists grouped. split; [done|]. split; [done|].
  assert (∀ i j a b,
            i < j → assets !! i = Some a → assets !! j = Some b →
            ∃ v sq,
              iloc corr_matrix i j = Ok v ∧ float_pow2 v = Ok sq ∧
              (i, j) ∈ all_pairs (length assets) ∧
              ∀ bucket,
                placed_in assets corr_matrix cat_map bucket (i, j) =
                if decide (same_sector cat_map a b)
                then if decide (sector_of cat_map a = bucket)
                     then Some (entry_of a b v sq) else None
                else if decide ((classify_correlation v).2 ≠ "weak" ∧
                                (classify_correlation v).2 ≠ "null")
                     then if decide (INTER_MARKET = bucket)
                          then Some (entry_of a b v sq) else None
                     else None) as Hpair.
  { intros i j a b Hij Ha Hb.
    assert ((i, j) ∈ all_pairs (length assets)) as Hin.
    { apply elem_of_all_pairs. apply lookup_lt_Some in Hb. lia. }
    unfold covers, squares_fit in Hcov, Hfit.
    rewrite Forall_forall in Hcov, Hfit.
    destruct (Hcov _ Hin) as [v Hv]. cbn [fst snd] in Hv.
    destruct (Hfit _ Hin v Hv) as [sq Hsq].
    exists v, sq. split_and!; try done.
    intros bucket. by apply placed_in_inside. }
  assert (∀ i j a b v sq bucket,
            (i, j) ∈ all_pairs (length assets) →
            bucket ∈ bucket_names →
            placed_in assets corr_matrix cat_map bucket (i, j) =
              Some (entry_of a b v sq) →
            ∃ rows, grouped !! bucket = Some rows ∧ entry_of a b v sq ∈ rows)
    as Hrow.
  { intros i j a b v sq bucket Hin Hbk Hpl. eexists. split.
    - rewrite Hlk. by rewrite bool_decide_eq_true_2.
    - apply list_elem_of_omap. by exists (i, j). }
  split.
  - intros i j a b Hij Ha Hb.
    destruct (Hpair i j a b Hij Ha Hb) as (v & sq & Hv & Hsq & Hin & Hpl).
    exists v, sq. split_and!; try done.
    + intros Hsame. apply (Hrow i j); [done| |].
      * by apply (same_sector_known assets cat_map i a b).
      * rewrite Hpl. by rewrite !decide_True.
    + intros Hdiff Hw Hn. apply (Hrow i j); [done|apply INTER_MARKET_bucket|].
      rewrite Hpl. rewrite decide_False, !decide_True; done.
    + intros Hdiff Htag bucket. rewrite Hpl.
      rewrite decide_False by done. rewrite decide_False; [done|].
      intros [? ?]. destruct Htag; done.
  - intros i j a b Hij Ha Hb.
    destruct (Hpair i j a b Hij Ha Hb) as (v & sq & Hv & Hsq & Hin & Hpl).
    split_and!.
    + intros Hv' Hsame. rewrite Hv in Hv'. injection Hv' as ->.
      exists (omap (placed_in assets corr_matrix cat_map
                      (sector_of cat_map a)) (all_pairs (length assets))),
             (sq * 100)%float.
      split.
      * rewrite Hlk, bool_decide_eq_true_2; [done|].
        by apply (same_sector_known assets cat_map i a b).
      * apply list_elem_of_omap. exists (i, j). split; [done|].
        rewrite Hpl. by rewrite !decide_True.
    + intros Hv' Hdiff bucket. rewrite Hv in Hv'. injection Hv' as ->.
      rewrite Hpl. rewrite decide_False by done.
      by rewrite decide_False by (by intros [_ ?]).
    + intros Hv' Hdiff. rewrite Hv in Hv'. injection Hv' as ->.
      exists (omap (placed_in assets corr_matrix cat_map INTER_MARKET)
                   (all_pairs (length assets))), (sq * 100)%float.
      split.
      * rewrite Hlk, bool_decide_eq_true_2; [done|apply INTER_MARKET_bucket].
      * apply list_elem_of_omap. exists (i, j). split; [done|].
        rewrite Hpl. rewrite decide_False by done.
        by rewrite !decide_True.
Qed.

Lemma filter_omap_rows {A B} (P : B → Prop) `{∀ y, Decision (P y)}
    (f g : A → option B) (l : list A) :
  (∀ x, x ∈ l →
        g x = y ← f x; if decide (P y) then Some y else None) →
  filter P (omap f l) = omap g l.
Proof.
  induction l as [|x l IH]; intros Hfg; [done|].
  rewrite !omap_cons_eq, (Hfg x) by constructor.
  assert (filter P (omap f l) = omap g l) as IH'.
  { apply IH. intros y Hy. apply Hfg. by constructor. }
  destruct (f x) as [y|]; cbn [mbind option_bind]; [|done].
  rewrite filter_cons. destruct (decide (P y)); by rewrite IH'.
Qed.

Section grouping_keys.
Context `{Libm}.
Context (assets : list string) (corr_matrix : DataFrame)
        (cat_map : gmap string string).

(** A run of the loop that returns has found the bucket of every pair it
    placed, and leaves the keys of the dict as they were. *)
Lemma for_each_pairs_keys (ps : list (nat * nat))
    (grouped grouped' : gmap string (list Entry)) :
  (∀ p, p ∈ ps → p.1 < p.2 < length assets) →
  for_each ps
    (λ p grouped, pair_step assets corr_matrix cat_map p.1 p.2 grouped)
    grouped = Ok grouped' →
  (∀ k, is_Some (grouped' !! k) ↔ is_Some (grouped !! k)) ∧
  ∀ p be, p ∈ ps → placement assets corr_matrix cat_map p = Some be →
          is_Some (grouped !! be.1).
Proof.
  revert grouped. induction ps as [|[i j] ps IH]; intros grouped Hrange Hrun.
  { injection Hrun as <-. split; [done|]. by intros p be Hp%elem_of_nil. }
  assert (i < j < length assets) as Hij by (apply (Hrange (i, j)); constructor).
  assert (∀ p, p ∈ ps → p.1 < p.2 < length assets) as Hrange'
    by (intros p Hp; apply Hrange; by constructor).
  destruct (lookup_lt_is_Some_2 assets i) as [a Ha]; [lia|].
  destruct (lookup_lt_is_Some_2 assets j) as [b Hb]; [lia|].
  cbn [for_each fst snd] in Hrun.
  destruct (iloc corr_matrix i j) as [v|e] eqn:Hv.
  2:{ by rewrite (pair_step_raise assets corr_matrix cat_map i j a b e)
        in Hrun. }
  destruct (float_pow2 v) as [sq|e] eqn:Hsq.
  2:{ by rewrite (pair_step_overflow assets corr_matrix cat_map i j a b v e)
        in Hrun. }
  rewrite (pair_step_placed assets corr_matrix cat_map i j a b v sq) in Hrun
    by done.
  assert (placement assets corr_matrix cat_map (i, j) =
          bucket ← bucket_of cat_map a b (classify_correlation v).2;
          Some (bucket, entry_of a b v sq)) as Hpl.
  { unfold placement. cbn [fst snd]. rewrite Ha, Hb. simpl.
    by rewrite Hv, Hsq. }
  destruct (bucket_of cat_map a b (classify_correlation v).2)
    as [bucket0|] eqn:Hb0.
  - unfold append_to, dict_get in Hrun.
    destruct (grouped !! bucket0) as [items0|] eqn:Hitems0;
      cbn [mbind result_bind] in Hrun; [|done].
    destruct (IH _ Hrange' Hrun) as [Hkeys Hplaced].
    assert (∀ k, is_Some (<[bucket0 := items0 ++ [entry_of a b v sq]]>
                            grouped !! k) ↔ is_Some (grouped !! k)) as Hins.
    { intros k. destruct (decide (bucket0 = k)) as [<-|Hne].
      - rewrite lookup_insert_eq, Hitems0. split; eauto.
      - by rewrite lookup_insert_ne by done. }
    split.
    + intros k. by rewrite Hkeys, Hins.
    + intros p be [->|Hp]%elem_of_cons Hbe.
      * rewrite Hpl in Hbe. cbn [mbind option_bind] in Hbe.
        injection Hbe as <-. cbn [fst]. rewrite Hitems0. eauto.
      * apply Hins. by apply (Hplaced p).
  - cbn [mbind result_bind] in Hrun.
    destruct (IH _ Hrange' Hrun) as [Hkeys Hplaced]. split; [done|].
    intros p be [->|Hp]%elem_of_cons Hbe.
    + by rewrite Hpl in Hbe.
    + by apply (Hplaced p).
Qed.

End grouping_keys.

Lemma float_pow2_nan `{Libm} (v : float) :
  PrimFloat.is_nan v = true → float_pow2 v = Ok v.
Proof. intros Hv. unfold float_pow2. by rewrite Hv. Qed.

Lemma nan_row_placed `{Libm} (assets : list string) (corr_matrix : DataFrame)
    (cat_map : gmap string string) (bucket : string) (i j : nat) :
  i < j < length assets →
  nan_row assets corr_matrix cat_map bucket (i, j) =
  e ← placed_in assets corr_matrix cat_map bucket (i, j);
  if decide (PrimFloat.is_nan (correlation e) = true) then Some e else None.
Proof.
  intros Hij.
  destruct (lookup_lt_is_Some_2 assets i) as [a Ha]; [lia|].
  destruct (lookup_lt_is_Some_2 assets j) as [b Hb]; [lia|].
  unfold nan_row. cbn [fst snd]. rewrite Ha, Hb. cbn [mbind option_bind].
  destruct (iloc corr_matrix i j) as [v|e] eqn:Hv.
  2:{ unfold placed_in, placement. cbn [fst snd]. rewrite Ha, Hb.
      cbn [mbind option_bind]. by rewrite Hv. }
  destruct (PrimFloat.is_nan v) eqn:Hnan.
  - pose proof (float_pow2_nan v Hnan) as Hsq.
    rewrite (placed_in_inside assets corr_matrix cat_map i j a b v v) by done.
    apply is_nan_eq in Hnan as ->.
    change (classify_correlation nan).2 with "weak".
    change (entry_of a b nan nan) with (nan_entry a b).
    repeat case_decide; cbn [mbind option_bind]; try done;
      try (rewrite decide_True by done; done); exfalso; tauto.
  - rewrite decide_False by (intros [? _]; done).
    destruct (float_pow2 v) as [sq|e] eqn:Hsq.
    + rewrite (placed_in_inside assets corr_matrix cat_map i j a b v sq)
        by done.
      repeat case_decide; cbn [mbind option_bind correlation entry_of];
        try done; by rewrite decide_False by (by rewrite Hnan).
    + unfold placed_in, placement. cbn [fst snd]. rewrite Ha, Hb.
      cbn [mbind option_bind]. by rewrite Hv, Hsq.
Qed.

(** C3, as amended.  A correlation that is not a number is classified weak,
    and [group_correlations] treats it like any other.  In every result the
    call returns, the rows of a bucket whose correlation is not a number
    are, in the order of the loop, the rows of the pairs of that sector
    whose entry is not a number: such a pair of one sector other than
    "Others" is listed in the bucket of that sector, and any other such pair
    in no bucket, the mixed one included.  No entry that is not a number
    makes the call raise: it returns whenever every position read is inside
    the matrix, every sector is a bucket of the result and the square of
    every entry that is a number does not overflow. *)
Theorem group_correlations_nan_rows `{Libm} (assets : list string)
    (corr_matrix : DataFrame) (cat_map : gmap string string) :
  (∀ v, PrimFloat.is_nan v = true →
        classify_correlation v = ("Weak Positive / Noise", "weak")) ∧
  (∀ grouped,
     group_correlations assets corr_matrix cat_map = Ok grouped →
     (∀ bucket rows,
        grouped !! bucket = Some rows →
        filter (λ e, PrimFloat.is_nan (correlation e) = true) rows =
        omap (nan_row assets corr_matrix cat_map bucket)
             (all_pairs (length assets))) ∧
     (∀ i j a b v,
        i < j → assets !! i = Some a → assets !! j = Some b →
        iloc corr_matrix i j = Ok v → PrimFloat.is_nan v = true →
        (same_sector cat_map a b →
         ∃ rows, grouped !! sector_of cat_map a = Some rows ∧
                 nan_entry a b ∈ rows) ∧
        (¬ same_sector cat_map a b →
         ∀ bucket,
           nan_row assets corr_matrix cat_map bucket (i, j) = None))) ∧
  (covers assets corr_matrix →
   sectors_known assets cat_map →
   (∀ i j v, i < j < length assets → iloc corr_matrix i j = Ok v →
             PrimFloat.is_nan v = true ∨ is_Ok (float_pow2 v)) →
   is_Ok (group_correlations assets corr_matrix cat_map)).
Proof.
  split_and!.
  - by intros v ->%is_nan_eq.
  - intros grouped Hg.
    pose proof (group_correlations_result assets corr_matrix cat_map) as Hres.
    rewrite Hg in Hres.
    assert (∀ bucket rows,
              grouped !! bucket = Some rows →
              bucket ∈ bucket_names ∧
              filter (λ e, PrimFloat.is_nan (correlation e) = true) rows =
              omap (nan_row assets corr_matrix cat_map bucket)
                   (all_pairs (length assets))) as Hrows.
    { intros bucket rows Hrows. rewrite Hres in Hrows.
      case_bool_decide as Hin; [|done]. injection Hrows as <-.
      split; [done|]. apply filter_omap_rows.
      intros [i j] Hij%elem_of_all_pairs. by apply nan_row_placed. }
    split; [intros bucket rows Hb; by apply Hrows|].
    intros i j a b v Hij Ha Hb Hv Hnan.
    assert ((i, j) ∈ all_pairs (length assets)) as Hin.
    { apply elem_of_all_pairs. apply lookup_lt_Some in Hb. lia. }
    split.
    + intros Hsame.
      destruct (grouped !! sector_of cat_map a) as [rows|] eqn:Hrs.
      * exists rows. split; [done|].
        destruct (Hrows _ _ Hrs) as [_ Heq].
        assert (nan_entry a b ∈
                filter (λ e, PrimFloat.is_nan (correlation e) = true) rows)
          as Hmem; [|by apply list_elem_of_filter in Hmem as [_ ?]].
        rewrite Heq. apply list_elem_of_omap. exists (i, j).
        split; [done|]. unfold nan_row. cbn [fst snd]. rewrite Ha, Hb.
        cbn [mbind option_bind]. rewrite Hv. by rewrite decide_True.
      * exfalso.
        pose proof (group_correlations_flat assets corr_matrix cat_map) as Hf.
        rewrite Hg in Hf. symmetry in Hf.
        apply for_each_pairs_keys in Hf as [Hkeys Hplaced];
          [|by intros [i' j'] Hp%elem_of_all_pairs].
        destruct (Hplaced (i, j) (sector_of cat_map a, entry_of a b v v) Hin)
          as [items Hitems].
        { unfold placement, bucket_of. cbn [fst snd]. rewrite Ha, Hb.
          cbn [mbind option_bind]. rewrite Hv, (float_pow2_nan v Hnan).
          fold (same_sector cat_map a b). by rewrite decide_True. }
        cbn [fst] in Hitems.
        assert (is_Some (grouped !! sector_of cat_map a)) as [? Hsome]
          by (apply Hkeys; eauto).
        congruence.
    + intros Hdiff bucket. unfold nan_row. cbn [fst snd]. rewrite Ha, Hb.
      cbn [mbind option_bind]. rewrite Hv.
      by rewrite decide_False by (intros (_ & ? & _); done).
  - intros Hcov Hknown Hfit.
    assert (squares_fit assets corr_matrix) as Hsq.
    { unfold squares_fit. apply Forall_forall.
      intros [i j] Hij%elem_of_all_pairs v Hv. cbn [fst snd] in Hv.
      destruct (Hfit i j v Hij Hv) as [Hnan|Hok]; [|done].
      exists v. by apply float_pow2_nan. }
    destruct (proj1 (group_correlations_cases assets corr_matrix cat_map
                       Hsq Hknown) Hcov) as (g & Hg & _).
    by exists g.
Qed.

(** C9, as amended.  There is no shape check.  With entries whose square
    does not overflow and a category map whose sectors are buckets, the call
    returns the grouping when every position [(i, j)] with
    [i < j < len(assets)] is inside the matrix - as in a square matrix of
    the size of the label list, and also in a larger one - and raises
    [IndexError] when one of them is outside. *)
Theorem group_correlations_index_error `{Libm} (assets : list string)
    (corr_matrix : DataFrame) (cat_map : gmap string string) :
  squares_fit assets corr_matrix →
  sectors_known assets cat_map →
  (square_over assets corr_matrix → covers assets corr_matrix) ∧
  (covers assets corr_matrix →
   grouped_as_specified assets corr_matrix cat_map) ∧
  (¬ covers assets corr_matrix →
   group_correlations assets corr_matrix cat_map = Raise IndexError).
Proof.
  intros Hsq Hknown. split; [apply square_over_covers|].
  by apply group_correlations_cases.
Qed.

(** C10.  Two matrices that agree at every position [(i, j)] with
    [i < j < len(assets)] give the same result, whatever they hold on and
    below the diagonal. *)
Theorem group_correlations_upper_triangle `{Libm} (assets : list string)
    (m1 m2 : DataFrame) (cat_map : gmap string string) :
  (∀ i j, i < j < length assets → iloc m1 i j = iloc m2 i j) →
  group_correlations assets m1 cat_map = group_correlations assets m2 cat_map.
Proof.
  intros Hagree. rewrite !group_correlations_flat.
  apply for_each_ext. intros [i j] g Hij%elem_of_all_pairs. cbn [fst snd].
  unfold pair_step. by rewrite (Hagree i j Hij).
Qed.

(** The code on the three inputs of [TestGroupCorrelations], with the
    correlation 0.05 between two stock indices added to the first: the pair
    of one sector is listed in its sector at 0.95 and at 0.05, the pair of
    two sectors is left out at 0.10 and listed in the mixed bucket at 0.85. *)
Example group_correlations_tests :
  pair_label <$>
    default [] (bucket (group_correlations (H:=square_libm) test_assets
                          test_matrix (build_category_map test_assets))
                       "Stock Indices") =
    ["ES (S&P 500) vs NQ (Nasdaq)"] ∧
  bucket (group_correlations (H:=square_libm) two_indices
            (matrix2 two_indices 0.05) (build_category_map two_indices))
         "Stock Indices" =
    Some [mkEntry "ES (S&P 500) vs NQ (Nasdaq)" 0.05
                  (0.05 * 0.05 * 100)%float
                  "Independent (Diversify)" "null"] ∧
  bucket (group_correlations (H:=square_libm) two_mixed
            (matrix2 two_mixed 0.10) (build_category_map two_mixed))
         INTER_MARKET = Some [] ∧
  bucket (group_correlations (H:=square_libm) two_mixed
            (matrix2 two_mixed 0.85) (build_category_map two_mixed))
         INTER_MARKET =
    Some [mkEntry "ES (S&P 500) vs GC (Gold)" 0.85
                  (0.85 * 0.85 * 100)%float
                  "Twins (High Risk)" "pos_strong"].
Proof. split_and!; vm_compute; reflexivity. Qed.

Lemma group_correlations_buckets_witness :
  square_over test_assets claim_matrix ∧
  squares_fit (H:=square_libm) test_assets claim_matrix ∧
  sectors_known test_assets (build_category_map test_assets) ∧
  ∃ grouped,
    group_correlations (H:=square_libm) test_assets claim_matrix
      (build_category_map test_assets) = Ok grouped ∧
    (∃ rows r2,
       grouped !! "Stock Indices" = Some rows ∧
       mkEntry "ES (S&P 500) vs NQ (Nasdaq)" 0.05 r2
               "Independent (Diversify)" "null" ∈ rows) ∧
    (∀ bucket,
       placed_in (H:=square_libm) test_assets claim_matrix
         (build_category_map test_assets) bucket (0, 2) = None) ∧
    (∃ rows r2,
       grouped !! INTER_MARKET = Some rows ∧
       mkEntry "NQ (Nasdaq) vs GC (Gold)" 0.85 r2
               "Twins (High Risk)" "pos_strong" ∈ rows).
Proof.
  assert (square_over test_assets claim_matrix) as Hsquare.
  { split_and!; try reflexivity. repeat constructor. }
  assert (squares_fit (H:=square_libm) test_assets claim_matrix) as Hfit.
  { unfold squares_fit.
    change (all_pairs (length test_assets)) with [(0, 1); (0, 2); (1, 2)].
    repeat constructor; intros v Hv; vm_compute in Hv; injection Hv as <-;
      eexists; vm_compute; reflexivity. }
  assert (sectors_known test_assets (build_category_map test_assets))
    as Hknown.
  { repeat constructor; right; apply (bool_decide_unpack _);
      vm_compute; exact I. }
  refine (conj Hsquare (conj Hfit (conj Hknown _))).
  destruct (group_correlations_buckets (H:=square_libm) test_assets
              claim_matrix (build_category_map test_assets)
              Hsquare Hfit Hknown)
    as (_ & _ & grouped & Hg & _ & _ & Hclaim).
  exists grouped. split; [exact Hg|].
  assert (same_sector (build_category_map test_assets)
            "ES (S&P 500)" "NQ (Nasdaq)") as Hsame
    by (split; vm_compute; [reflexivity | discriminate]).
  assert (¬ same_sector (build_category_map test_assets)
              "ES (S&P 500)" "GC (Gold)") as Hes
    by (intros [Heq _]; vm_compute in Heq; discriminate).
  assert (¬ same_sector (build_category_map test_assets)
              "NQ (Nasdaq)" "GC (Gold)") as Hnq
    by (intros [Heq _]; vm_compute in Heq; discriminate).
  split_and!.
  - apply (proj1 (Hclaim 0 1 "ES (S&P 500)" "NQ (Nasdaq)"
                    ltac:(lia) eq_refl eq_refl) eq_refl Hsame).
  - apply (proj1 (proj2 (Hclaim 0 2 "ES (S&P 500)" "GC (Gold)"
                           ltac:(lia) eq_refl eq_refl)) eq_refl Hes).
  - apply (proj2 (proj2 (Hclaim 1 2 "NQ (Nasdaq)" "GC (Gold)"
                           ltac:(lia) eq_refl eq_refl)) eq_refl Hnq).
Defined.

Lemma group_correlations_nan_rows_witness :
  group_correlations (H:=square_libm) two_indices (matrix2 two_indices nan)
    (build_category_map two_indices) =
  Ok (returned (group_correlations (H:=square_libm) two_indices
                  (matrix2 two_indices nan)
                  (build_category_map two_indices))) ∧
  ∃ rows,
    returned (group_correlations (H:=square_libm) two_indices
                (matrix2 two_indices nan) (build_category_map two_indices))
      !! "Stock Indices" = Some rows ∧
    nan_entry "ES (S&P 500)" "NQ (Nasdaq)" ∈ rows.
Proof.
  assert (group_correlations (H:=square_libm) two_indices
            (matrix2 two_indices nan) (build_category_map two_indices) =
          Ok (returned (group_correlations (H:=square_libm) two_indices
                          (matrix2 two_indices nan)
                          (build_category_map two_indices)))) as Hg
    by by_evaluation.
  split; [exact Hg|].
  assert (same_sector (build_category_map two_indices)
            "ES (S&P 500)" "NQ (Nasdaq)") as Hsame
    by (split; vm_compute; [reflexivity | discriminate]).
  apply (proj1 (proj2 (proj1 (proj2 (group_correlations_nan_rows
                  (H:=square_libm) two_indices (matrix2 two_indices nan)
                  (build_category_map two_indices))) _ Hg)
                 0 1 "ES (S&P 500)" "NQ (Nasdaq)" nan
                 ltac:(lia) eq_refl eq_refl eq_refl eq_refl) Hsame).
Defined.

Lemma group_correlations_index_error_witness :
  squares_fit (H:=square_libm) test_assets (matrix2 two_indices 0.95) ∧
  sectors_known test_assets ∅ ∧
  ¬ covers test_assets (matrix2 two_indices 0.95) ∧
  group_correlations (H:=square_libm) test_assets
    (matrix2 two_indices 0.95) ∅ = Raise IndexError.
Proof.
  assert (squares_fit (H:=square_libm) test_assets (matrix2 two_indices 0.95))
    as Hfit.
  { unfold squares_fit.
    change (all_pairs (length test_assets)) with [(0, 1); (0, 2); (1, 2)].
    repeat constructor; intros v Hv; vm_compute in Hv;
      [injection Hv as <-; eexists; vm_compute; reflexivity
      | discriminate | discriminate]. }
  assert (sectors_known test_assets ∅) as Hknown
    by (repeat constructor; left; reflexivity).
  assert (¬ covers test_assets (matrix2 two_indices 0.95)) as Hout.
  { unfold covers.
    change (all_pairs (length test_assets)) with [(0, 1); (0, 2); (1, 2)].
    intros Hc. apply Forall_cons in Hc as [_ Hc].
    apply Forall_cons in Hc as [[v Hv] _]. vm_compute in Hv. discriminate. }
  refine (conj Hfit (conj Hknown (conj Hout _))).
  apply (group_correlations_index_error (H:=square_libm) test_assets
           (matrix2 two_indices 0.95) ∅ Hfit Hknown). exact Hout.
Defined.

(** C9 as stated fails on a matrix larger than the label list: two labels
    with a 3 x 3 matrix are not a shape mismatch for the code, which reads
    the entry at (0, 1) and returns. *)
Lemma group_correlations_larger_matrix :
  ¬ square_over two_indices matrix3 ∧
  bucket (group_correlations (H:=square_libm) two_indices matrix3
            (build_category_map two_indices)) "Stock Indices" =
    Some [mkEntry "ES (S&P 500) vs NQ (Nasdaq)" 0.85
                  (0.85 * 0.85 * 100)%float
                  "Twins (High Risk)" "pos_strong"].
Proof.
  split; [|vm_compute; reflexivity].
  intros (_ & Hrows & _). vm_compute in Hrows. discriminate.
Qed.

Lemma group_correlations_upper_triangle_witness :
  (∀ i j, i < j < length two_mixed →
     iloc (matrix2 two_mixed 0.85) i j =
     iloc (mkDataFrame two_mixed two_mixed [[7; 0.85]; [-3; nan]]%float) i j) ∧
  group_correlations (H:=square_libm) two_mixed (matrix2 two_mixed 0.85)
    (build_category_map two_mixed) =
  group_correlations (H:=square_libm) two_mixed
    (mkDataFrame two_mixed two_mixed [[7; 0.85]; [-3; nan]]%float)
    (build_category_map two_mixed).
Proof.
  assert (∀ i j, i < j < length two_mixed →
     iloc (matrix2 two_mixed 0.85) i j =
     iloc (mkDataFrame two_mixed two_mixed [[7; 0.85]; [-3; nan]]%float) i j)
    as Hagree.
  { intros i j Hij. simpl in Hij.
    assert (i = 0) as -> by lia. assert (j = 1) as -> by lia. reflexivity. }
  split; [exact Hagree|].
  apply (group_correlations_upper_triangle (H:=square_libm) two_mixed
           _ _ (build_category_map two_mixed) Hagree).
Defined.

(** C3 as stated fails on two instruments of one sector: with a NaN between
    two stock indices, the call returns and the pair is listed in the
    "Stock Indices" bucket, tagged weak. *)
Lemma group_correlations_lists_nan :
  iloc (matrix2 two_indices nan) 0 1 = Ok nan ∧
  bucket (group_correlations (H:=square_libm) two_indices
            (matrix2 two_indices nan) (build_category_map two_indices))
         "Stock Indices" =
    Some [mkEntry "ES (S&P 500) vs NQ (Nasdaq)" nan nan
                  "Weak Positive / Noise" "weak"].
Proof. split; vm_compute; reflexivity. Qed.

(** ** compute_correlation_matrices *)

Lemma corr_square_labelled (df : DataFrame) :
  square_labelled (columns df) (pandas.corr df).
Proof.
  unfold square_labelled, rectangular, pandas.corr, nrows, ncols. simpl.
  split_and!; try done.
  - by rewrite length_map, length_seq.
  - apply Forall_forall. intros row Hrow%list_elem_of_In.
    apply in_map_iff in Hrow as (xi & <- & _).
    by rewrite length_map, length_seq.
Qed.

(** ** The frames of the engine *)

Lemma div_nan (p : float) : (p / nan)%float = nan.
Proof.
  rewrite <- (SF2Prim_Prim2SF (p / nan)%float), FloatAxioms.div_spec.
  change (Prim2SF nan) with S754_nan.
  by destruct (Prim2SF p).
Qed.

Lemma length_ffill_rows (last : list float) (rows : list (list float)) :
  length (pandas.ffill_rows last rows) = length rows.
Proof.
  revert last. induction rows as [|row rows IH]; intros last; [done|].
  cbn [pandas.ffill_rows length]. by rewrite IH.
Qed.

Lemma Forall_length_ffill_rows (n : nat) (last : list float)
    (rows : list (list float)) :
  Forall (λ row, length row = n) rows →
  Forall (λ row, length row = n) (pandas.ffill_rows last rows).
Proof.
  intros Hrows. revert last.
  induction Hrows as [|row rows Hrow _ IH]; intros last; [constructor|].
  cbn [pandas.ffill_rows]. constructor; [|apply IH].
  unfold pandas.ffill_row. by rewrite length_imap.
Qed.



Section engine_facts.
Context `{Pandas}.

Lemma prices_rectangular (data : DataFrame) :
  rectangular data →
  index (prices data) = index data ∧ columns (prices data) = columns data ∧
  rectangular (prices data).
Proof.
  intros [Hlen Hrows]. unfold prices.
  destruct pct_change_pads; [|done].
  split_and!; try done. unfold rectangular, nrows, ncols, pandas.ffill.
  cbn [values index columns]. split.
  - by rewrite length_ffill_rows.
  - by apply Forall_length_ffill_rows.
Qed.

Lemma pct_change_prices (W : nat) (data : DataFrame) :
  pandas.pct_change W data =
  mkDataFrame (index (prices data)) (columns (prices data))
    (zip_with (zip_with (λ p q, (p / q - 1)%float))
       (values (prices data)) (values (pandas.shift W (prices data)))).
Proof. reflexivity. Qed.

(** The frame of the changes, cell by cell. *)
Lemma pct_change_values (W : nat) (data : DataFrame) :
  rectangular data →
  values (pandas.pct_change W data) =
  (λ t, (λ c, change W data t c) <$> seq 0 (ncols data))
    <$> seq 0 (nrows data).
Proof.
  intros Hrect.
  destruct (prices_rectangular data Hrect) as (Hidx & Hcols & Hlen & Hrows).
  rewrite pct_change_prices. cbn [values]. unfold pandas.shift. cbn [values].
  unfold nrows, ncols in *. rewrite Hidx, Hcols in *.
  set (rows := values (prices data)) in *.
  apply list_eq. intros t.
  rewrite lookup_zip_with, list_lookup_fmap.
  destruct (decide (t < length (index data))) as [Ht|Ht].
  2:{ rewrite lookup_seq_ge by lia.
      rewrite (lookup_ge_None_2 rows) by lia. done. }
  rewrite lookup_seq_lt by done.
  destruct (lookup_lt_is_Some_2 rows t) as [row Hrow]; [lia|].
  rewrite Hrow. cbn [mbind option_bind fmap option_fmap option_map].
  rewrite Forall_forall in Hrows.
  pose proof (Hrows row (list_elem_of_lookup_2 _ _ _ Hrow)) as Hlr.
  assert (∀ c, cell (prices data) t c = default nan (row !! c)) as Hcell.
  { intros c. unfold cell. fold rows. by rewrite Hrow. }
  destruct (decide (t < W)) as [HtW|HtW].
  - rewrite lookup_app_l by (rewrite length_replicate; lia).
    rewrite lookup_replicate_2 by lia. cbn [mbind option_bind]. f_equal.
    apply list_eq. intros c. rewrite lookup_zip_with, list_lookup_fmap.
    destruct (decide (c < length (columns data))) as [Hc|Hc].
    2:{ rewrite lookup_seq_ge by lia.
        by rewrite (lookup_ge_None_2 row) by lia. }
    rewrite lookup_seq_lt by done.
    destruct (lookup_lt_is_Some_2 row c) as [p Hp]; [lia|].
    rewrite Hp, lookup_replicate_2 by done.
    cbn [mbind option_bind fmap option_fmap option_map].
    unfold change. cbn [Nat.add]. rewrite (proj2 (Nat.ltb_lt t W)) by done.
    by rewrite div_nan.
  - rewrite lookup_app_r by (rewrite length_replicate; lia).
    rewrite length_replicate, lookup_take_lt by lia.
    replace (t - W `min` length rows) with (t - W) by lia.
    destruct (lookup_lt_is_Some_2 rows (t - W)) as [row' Hrow']; [lia|].
    rewrite Hrow'. cbn [mbind option_bind]. f_equal.
    pose proof (Hrows row' (list_elem_of_lookup_2 _ _ _ Hrow')) as Hlr'.
    apply list_eq. intros c. rewrite lookup_zip_with, list_lookup_fmap.
    destruct (decide (c < length (columns data))) as [Hc|Hc].
    2:{ rewrite lookup_seq_ge by lia.
        by rewrite (lookup_ge_None_2 row) by lia. }
    rewrite lookup_seq_lt by done.
    destruct (lookup_lt_is_Some_2 row c) as [p Hp]; [lia|].
    destruct (lookup_lt_is_Some_2 row' c) as [q Hq]; [lia|].
    rewrite Hp, Hq.
    cbn [mbind option_bind fmap option_fmap option_map].
    unfold change. cbn [Nat.add]. rewrite (proj2 (Nat.ltb_ge t W)) by lia.
    rewrite Hcell, Hp. unfold cell. fold rows. rewrite Hrow'.
    cbn [mbind option_bind]. by rewrite Hq.
Qed.

End engine_facts.

Lemma dropna_values (df : DataFrame) :
  length (index df) = length (values df) →
  values (pandas.dropna df) =
  List.filter (forallb (λ v, negb (PrimFloat.is_nan v))) (values df).
Proof.
  unfold pandas.dropna. cbn [values]. generalize (index df) as idx.
  induction (values df) as [|row rows IH]; intros idx Hlen.
  - by destruct idx.
  - destruct idx as [|d idx]; [done|]. injection Hlen as Hlen.
    cbn [zip zip_with List.filter snd].
    destruct (forallb _ row); cbn [fmap list_fmap snd]; by rewrite IH.
Qed.

Lemma dropna_no_rows (df : DataFrame) :
  nrows (pandas.dropna df) = 0 → values (pandas.dropna df) = [].
Proof.
  unfold nrows, pandas.dropna. cbn [index values].
  intros Hn. by destruct (List.filter _ _).
Qed.

Lemma forallb_fmap {A B} (P : B → bool) (g : A → B) (l : list A) :
  forallb P (g <$> l) = forallb (λ x, P (g x)) l.
Proof.
  induction l as [|x l IH]; [done|].
  cbn [fmap list_fmap forallb]. f_equal. apply IH.
Qed.



Lemma corr_no_rows (df : DataFrame) : values df = [] → all_nan (pandas.corr df).
Proof.
  intros Hempty. unfold all_nan, pandas.corr. cbn [values].
  apply Forall_forall. intros row Hrow%list_elem_of_In.
  apply in_map_iff in Hrow as (xi & <- & _).
  apply Forall_forall. intros v Hv%list_elem_of_In.
  apply in_map_iff in Hv as (yi & <- & _).
  unfold pandas.column. rewrite Hempty. reflexivity.
Qed.

Section engine_matrices.
Context `{Pandas}.

(** The frame that [corr] is given: the changes on the surviving rows. *)
Lemma surviving_values (W : nat) (data : DataFrame) :
  rectangular data →
  values (pandas.dropna (pandas.pct_change W data)) =
  (λ t, (λ c, change W data t c) <$> seq 0 (ncols data))
    <$> surviving W data.
Proof.
  intros Hrect. rewrite dropna_values.
  - rewrite pct_change_values by done. unfold surviving.
    change (?f <$> ?l) with (map f l) at 1. rewrite filter_map_swap.
    change (map ?f ?l) with (f <$> l). f_equal.
    apply filter_ext. intros t. by rewrite forallb_fmap.
  - rewrite pct_change_values by done.
    rewrite length_fmap, length_seq.
    destruct (prices_rectangular data Hrect) as (Hidx & _).
    rewrite pct_change_prices. cbn [index]. by rewrite Hidx.
Qed.


Lemma surviving_history (W : nat) (data : DataFrame) (t : nat) :
  0 < ncols data → t ∈ surviving W data → W ≤ t < nrows data.
Proof.
  intros Hk Ht. unfold surviving in Ht.
  apply list_elem_of_In, filter_In in Ht as [Ht Hs].
  apply in_seq in Ht. split; [|lia].
  unfold survives in Hs. destruct (ncols data) as [|k]; [lia|].
  cbn [seq forallb] in Hs. apply andb_true_iff in Hs as [Hs _].
  unfold change in Hs. destruct (t <? W) eqn:HtW; [done|].
  by apply Nat.ltb_ge in HtW.
Qed.

End engine_matrices.








Lemma engine_columns `{Pandas} (W : nat) (data : DataFrame) :
  columns (pandas.dropna (pandas.pct_change W data)) = columns data.
Proof.
  unfold pandas.dropna, pandas.pct_change. cbn [columns].
  by destruct pct_change_pads.
Qed.

Lemma engine_no_rows `{Pandas} (W : nat) (data : DataFrame) :
  nrows data = 0 → nrows (pandas.dropna (pandas.pct_change W data)) = 0.
Proof.
  unfold nrows, pandas.dropna, pandas.pct_change. cbn [index].
  intros Hn. destruct pct_change_pads; cbn [index pandas.ffill];
    by destruct (index data).
Qed.

Lemma engine_no_columns `{Pandas} (W : nat) (data : DataFrame) :
  ncols data = 0 →
  values (pandas.corr (pandas.dropna (pandas.pct_change W data))) = [].
Proof.
  intros Hk. unfold pandas.corr, ncols. cbn [values].
  rewrite engine_columns. unfold ncols in Hk. by rewrite Hk.
Qed.

(** C4, as amended.  [compute_correlation_matrices] checks nothing: on every
    price table, the empty and the malformed ones included, it raises
    nothing and returns two square frames labelled by the columns of the
    table on both axes.  A matrix whose window leaves no row is filled with
    not-a-number, as both are for a table without rows; for a table without
    columns both matrices are empty. *)
Theorem compute_correlation_matrices_returns `{Pandas} (data : DataFrame) :
  ∃ corr_short corr_medium,
    compute_correlation_matrices data = Ok (corr_short, corr_medium) ∧
    square_labelled (columns data) corr_short ∧
    square_labelled (columns data) corr_medium ∧
    (nrows (pandas.dropna (pandas.pct_change SHORT_TERM_DAYS data)) = 0 →
     all_nan corr_short) ∧
    (nrows (pandas.dropna (pandas.pct_change MEDIUM_TERM_DAYS data)) = 0 →
     all_nan corr_medium) ∧
    (nrows data = 0 → all_nan corr_short ∧ all_nan corr_medium) ∧
    (ncols data = 0 → values corr_short = [] ∧ values corr_medium = []).
Proof.
  eexists _, _. split; [reflexivity|].
  split_and!.
  - rewrite <- (engine_columns SHORT_TERM_DAYS data).
    apply corr_square_labelled.
  - rewrite <- (engine_columns MEDIUM_TERM_DAYS data).
    apply corr_square_labelled.
  - intros Hn. by apply corr_no_rows, dropna_no_rows.
  - intros Hn. by apply corr_no_rows, dropna_no_rows.
  - intros Hn. split; by apply corr_no_rows, dropna_no_rows, engine_no_rows.
  - intros Hk. split; by apply engine_no_columns.
Qed.

(** C4 as stated fails on each kind of table it names, under either version
    of pandas: without rows, without columns, and with a label given twice,
    the call returns a pair of frames - of NaN for want of rows, empty, and
    of coefficients under the doubled label. *)
Lemma compute_correlation_matrices_accepts_malformed :
  Forall
    (λ version : Pandas,
       (malformed no_rows ∧
        compute_correlation_matrices (H:=version) no_rows =
          Ok (mkDataFrame ["A"; "B"] ["A"; "B"] [[nan; nan]; [nan; nan]],
              mkDataFrame ["A"; "B"] ["A"; "B"] [[nan; nan]; [nan; nan]])) ∧
       (malformed no_columns ∧
        compute_correlation_matrices (H:=version) no_columns =
          Ok (mkDataFrame [] [] [], mkDataFrame [] [] [])) ∧
       (malformed twice_A ∧
        compute_correlation_matrices (H:=version) twice_A =
          Ok (mkDataFrame ["A"; "A"] ["A"; "A"] [[1; 1]; [1; 1]]%float,
              mkDataFrame ["A"; "A"] ["A"; "A"] [[nan; nan]; [nan; nan]])))
    engine_versions.
Proof.
  assert (malformed no_rows) as Hrows by (by left).
  assert (malformed no_columns) as Hcols by (right; by left).
  assert (malformed twice_A) as Htwice.
  { right. right. intros Hnd. apply NoDup_cons in Hnd as [Hnin _].
    apply Hnin. constructor. }
  unfold engine_versions.
  repeat apply Forall_cons_2; [| |constructor];
    cbn beta; split_and!; try done; vm_compute; reflexivity.
Qed.









(** The diagonal is not 1.0 by construction: for a series of the changes
    1e100 and 0, whose sum of squared deviations is 5e199, the product of
    the sums overflows and the coefficient of the instrument with itself
    comes out as 0.0. *)
Example compute_correlation_matrices_diagonal_zero :
  Forall
    (λ version : Pandas,
       series (H:=version) SHORT_TERM_DAYS huge_swing 0 =
         [1e100%float; 0%float] ∧
       pandas.ssqdm_x (sums [1e100%float; 0%float] [1e100%float; 0%float]) =
         5e199%float ∧
       compute_correlation_matrices (H:=version) huge_swing =
         Ok (mkDataFrame ["A"] ["A"] [[0%float]],
             mkDataFrame ["A"] ["A"] [[nan]]))
    engine_versions.
Proof.
  unfold engine_versions.
  repeat apply Forall_cons_2; [| |constructor];
    cbn beta; split_and!; vm_compute; reflexivity.
Qed.

(** * Further properties *)

(** ** classify_correlation *)

Ltac float_goal :=
  repeat split;
  first [ assumption
        | apply ltb_flt; float_order
        | apply leb_fle; float_order ].

Ltac ladder_leaves :=
  unfold classify_correlation;
  cbv [TWINS_THRESHOLD MODERATE_POS_THRESHOLD INDEPENDENT_LOW INDEPENDENT_HIGH
       WEAK_NEG_THRESHOLD MIRROR_THRESHOLD];
  repeat match goal with
  | |- context [if ?b then _ else _] => destruct b eqn:?
  end; cbn [fst snd].

(** X1. The tag tells the range: a value is tagged pos_strong only if it is
    at least 0.80, pos_mod only in [0.50, 0.80), null only in [-0.20, 0.20],
    neg_weak only in (-0.50, -0.20), neg_mod only in (-0.80, -0.50],
    neg_strong only at or below -0.80, and weak only in (0.20, 0.50) or when
    it is not a number. *)
Theorem classify_tag_range (v : float) :
  ((classify_correlation v).2 = "pos_strong" ↔ (0.80 <=? v)%float = true) ∧
  ((classify_correlation v).2 = "pos_mod" ↔
     (0.50 <=? v)%float = true ∧ (v <? 0.80)%float = true) ∧
  ((classify_correlation v).2 = "null" ↔
     (-0.20 <=? v)%float = true ∧ (v <=? 0.20)%float = true) ∧
  ((classify_correlation v).2 = "neg_weak" ↔
     (-0.50 <? v)%float = true ∧ (v <? -0.20)%float = true) ∧
  ((classify_correlation v).2 = "neg_mod" ↔
     (-0.80 <? v)%float = true ∧ (v <=? -0.50)%float = true) ∧
  ((classify_correlation v).2 = "neg_strong" ↔ (v <=? -0.80)%float = true) ∧
  ((classify_correlation v).2 = "weak" ↔
     ((0.20 <? v)%float = true ∧ (v <? 0.50)%float = true) ∨
     PrimFloat.is_nan v = true).
Proof.
  split_and!; (split; [|intros; destruct_or?; destruct_and?]).
  all: ladder_leaves; try discriminate; try reflexivity; try (intros _).
  all: try (exfalso; float_order).
  all: try float_goal.
  all: destruct (PrimFloat.is_nan v) eqn:?; [by right|left; float_goal].
Qed.

Lemma tag_rank_thresholds (v : float) :
  PrimFloat.is_nan v = false →
  tag_rank (classify_correlation v).2 = thresholds_passed v.
Proof.
  intros Hv. unfold thresholds_passed. ladder_leaves;
    repeat match goal with
    | |- context [if ?b then _ else _] => destruct b eqn:?
    end;
    first [ by vm_compute | exfalso; float_order ].
Qed.

Lemma thresholds_passed_monotone (v w : float) :
  (v <=? w)%float = true → thresholds_passed v ≤ thresholds_passed w.
Proof.
  intros Hvw. unfold thresholds_passed.
  repeat match goal with
  | |- context [if ?b then _ else _] => destruct b eqn:?
  end;
  first [ lia | exfalso; float_order ].
Qed.

(** X2. The classification is a monotone step function: when [v <= w], the
    tag of [v] is not stronger on the direct side than the tag of [w], along
    neg_strong, neg_mod, neg_weak, null, weak, pos_mod, pos_strong. *)
Theorem classify_correlation_monotone (v w : float) :
  (v <=? w)%float = true →
  tag_rank (classify_correlation v).2 ≤ tag_rank (classify_correlation w).2.
Proof.
  intros Hvw.
  assert (PrimFloat.is_nan v = false ∧ PrimFloat.is_nan w = false) as [Hv Hw].
  { destruct (PrimFloat.is_nan v) eqn:?, (PrimFloat.is_nan w) eqn:?;
      first [done | exfalso; float_order]. }
  rewrite !tag_rank_thresholds by done.
  by apply thresholds_passed_monotone.
Qed.

Lemma classify_correlation_monotone_witness :
  (-0.35 <=? 0.65)%float = true ∧
  tag_rank (classify_correlation (-0.35)).2
  ≤ tag_rank (classify_correlation 0.65).2.
Proof.
  split; [reflexivity|].
  apply (classify_correlation_monotone (-0.35) 0.65). reflexivity.
Defined.

(** ** group_correlations *)

Lemma all_pairs_few (n : nat) : n ≤ 1 → all_pairs n = [].
Proof.
  intros Hn. destruct n as [|[|n]]; [done | done | lia].
Qed.

Lemma length_pairs_from (n d k : nat) :
  k + d = n →
  2 * length (seq k d ≫= λ i, (λ j, (i, j)) <$> seq (i + 1) (n - (i + 1)))
  = d * (d - 1).
Proof.
  revert k. induction d as [|d IH]; intros k Hk; [done|].
  cbn [seq]. change ((k :: seq (S k) d) ≫= ?f) with (f k ++ seq (S k) d ≫= f).
  rewrite length_app, length_fmap, length_seq.
  specialize (IH (S k)). nia.
Qed.

Lemma length_all_pairs (n : nat) : 2 * length (all_pairs n) = n * (n - 1).
Proof. unfold all_pairs. by apply length_pairs_from. Qed.

Lemma length_omap_le {A B} (f : A → option B) (l : list A) :
  length (omap f l) ≤ length l.
Proof.
  induction l as [|x l IH]; [done|]. rewrite omap_cons_eq.
  destruct (f x); simpl; lia.
Qed.

(** X3. Whenever [group_correlations] returns, whatever the matrix and the
    category map, the dict it returns has the sectors of the taxonomy and
    the mixed bucket as its keys and no other, and each bucket lists, in the
    order of the loop, the rows of the pairs that [bucket_of] sends to it. *)
Theorem group_correlations_returned `{Libm} (assets : list string)
    (corr_matrix : DataFrame) (cat_map : gmap string string)
    (grouped : gmap string (list Entry)) :
  group_correlations assets corr_matrix cat_map = Ok grouped →
  ∀ bucket,
    grouped !! bucket =
    if bool_decide (bucket ∈ bucket_names)
    then Some (omap (placed_in assets corr_matrix cat_map bucket)
                    (all_pairs (length assets)))
    else None.
Proof.
  intros Hg.
  pose proof (group_correlations_result assets corr_matrix cat_map) as Hres.
  by rewrite Hg in Hres.
Qed.

Lemma group_correlations_returned_witness :
  group_correlations (H:=square_libm) test_assets test_matrix
    (build_category_map test_assets) =
  Ok (returned (group_correlations (H:=square_libm) test_assets test_matrix
                  (build_category_map test_assets))) ∧
  ∀ bucket,
    returned (group_correlations (H:=square_libm) test_assets test_matrix
                (build_category_map test_assets)) !! bucket =
    if bool_decide (bucket ∈ bucket_names)
    then Some (omap (placed_in (H:=square_libm) test_assets test_matrix
                       (build_category_map test_assets) bucket)
                    (all_pairs (length test_assets)))
    else None.
Proof.
  assert (group_correlations (H:=square_libm) test_assets test_matrix
            (build_category_map test_assets) =
          Ok (returned (group_correlations (H:=square_libm) test_assets
                          test_matrix (build_category_map test_assets))))
    as Hg by by_evaluation.
  split; [exact Hg|].
  apply (group_correlations_returned (H:=square_libm) test_assets test_matrix
           (build_category_map test_assets) _ Hg).
Defined.

Lemma at_least_covers (assets : list string) (corr_matrix : DataFrame) :
  at_least assets corr_matrix → covers assets corr_matrix.
Proof.
  intros [Hlen Hrows]. unfold covers. apply Forall_forall.
  intros [i j] Hij%elem_of_all_pairs. cbn [fst snd].
  unfold iloc, list_get.
  destruct (lookup_lt_is_Some_2 (values corr_matrix) i) as [row Hrow];
    [lia|].
  rewrite Hrow. simpl. rewrite Forall_forall in Hrows.
  pose proof (Hrows row (list_elem_of_lookup_2 _ _ _ Hrow)) as Hlr.
  destruct (lookup_lt_is_Some_2 row j) as [v Hv]; [lia|].
  rewrite Hv. by eexists.
Qed.

(** X4. The two functions compose as the strong-correlations tab calls them:
    with the map that [build_category_map] builds from the labels, on a
    matrix with at least as many rows and columns as there are labels - the
    square one of that size or a larger one - whose entries have a square
    that does not overflow, [group_correlations] returns the grouping and
    never misses a bucket. *)
Theorem group_correlations_of_built_map `{Libm} (assets : list string)
    (corr_matrix : DataFrame) :
  at_least assets corr_matrix →
  squares_fit assets corr_matrix →
  grouped_as_specified assets corr_matrix (build_category_map assets).
Proof.
  intros Hlarge Hfit.
  apply group_correlations_cases;
    [done | apply build_category_map_known | by apply at_least_covers].
Qed.

Lemma group_correlations_of_built_map_witness :
  at_least two_indices matrix3 ∧
  squares_fit (H:=square_libm) two_indices matrix3 ∧
  grouped_as_specified (H:=square_libm) two_indices matrix3
    (build_category_map two_indices).
Proof.
  assert (at_least two_indices matrix3) as Hlarge.
  { split; [vm_compute; lia|]. repeat constructor. }
  assert (squares_fit (H:=square_libm) two_indices matrix3) as Hfit.
  { unfold squares_fit. change (all_pairs (length two_indices)) with [(0, 1)].
    repeat constructor; intros v Hv; vm_compute in Hv; injection Hv as <-;
      eexists; vm_compute; reflexivity. }
  refine (conj Hlarge (conj Hfit _)).
  apply (group_correlations_of_built_map (H:=square_libm) two_indices
           matrix3 Hlarge Hfit).
Defined.

Lemma build_category_map_not_mixed (labels : list string) (a : string) :
  build_category_map labels !! a ≠ Some INTER_MARKET.
Proof.
  intros (_ & tickers & _ & Hin & _)%build_category_map_lookup.
  assert (INTER_MARKET ∈ SECTORS.*1) as Hfst
    by (apply list_elem_of_fmap; by exists (INTER_MARKET, tickers)).
  revert Hfst. apply (bool_decide_unpack _). vm_compute. exact I.
Qed.

(** X5. The mixed bucket never holds a row tagged weak or null, provided
    the category map does not itself name the mixed bucket as a sector (the
    map of [build_category_map] never does). *)
Theorem inter_market_never_weak `{Libm} (assets : list string)
    (corr_matrix : DataFrame) (cat_map : gmap string string)
    (grouped : gmap string (list Entry)) (rows : list Entry) :
  (∀ a, cat_map !! a ≠ Some INTER_MARKET) →
  group_correlations assets corr_matrix cat_map = Ok grouped →
  grouped !! INTER_MARKET = Some rows →
  Forall (λ e, tag e ≠ "weak" ∧ tag e ≠ "null") rows.
Proof.
  intros Hnot Hg Hrows.
  pose proof (group_correlations_result assets corr_matrix cat_map) as Hres.
  rewrite Hg in Hres. rewrite Hres in Hrows.
  case_bool_decide; [|done]. injection Hrows as <-.
  apply Forall_forall. intros e (p & _ & Hp)%list_elem_of_omap.
  unfold placed_in, placement in Hp.
  destruct (assets !! p.1) as [a|] eqn:Ha; [|done].
  destruct (assets !! p.2) as [b|]; [|done]. simpl in Hp.
  destruct (iloc corr_matrix p.1 p.2) as [v|]; [|done].
  destruct (float_pow2 v) as [sq|]; [|done].
  destruct (bucket_of cat_map a b (classify_correlation v).2)
    as [bucket0|] eqn:Hb0; [|done].
  simpl in Hp. case_decide as Hbk; [|done]. injection Hp as <-.
  subst bucket0. simpl.
  apply bucket_of_cases in Hb0 as [(Hs & _ & Ho)|(_ & ? & ?)]; [|done].
  exfalso. unfold sector_of in Hs.
  destruct (cat_map !! a) as [s|] eqn:Hs'; simpl in Hs.
  - apply (Hnot a). congruence.
  - done.
Qed.

Lemma inter_market_never_weak_witness :
  (∀ a, build_category_map test_assets !! a ≠ Some INTER_MARKET) ∧
  Forall (λ e, tag e ≠ "weak" ∧ tag e ≠ "null")
    (default [] (returned (group_correlations (H:=square_libm) two_mixed
                             (matrix2 two_mixed 0.85)
                             (build_category_map test_assets))
                 !! INTER_MARKET)).
Proof.
  assert (∀ a, build_category_map test_assets !! a ≠ Some INTER_MARKET)
    as Hnot.
  { intros a. apply build_category_map_not_mixed. }
  split; [exact Hnot|].
  apply (inter_market_never_weak (H:=square_libm) two_mixed
           (matrix2 two_mixed 0.85) (build_category_map test_assets)
           (returned (group_correlations (H:=square_libm) two_mixed
                        (matrix2 two_mixed 0.85)
                        (build_category_map test_assets))) _ Hnot);
    by_evaluation.
Defined.

(** X6. With fewer than two labels there is no pair: the call reads neither
    the matrix nor the category map and returns the nine buckets, all
    empty. *)
Theorem group_correlations_few_labels `{Libm} (assets : list string)
    (corr_matrix : DataFrame) (cat_map : gmap string string) :
  length assets ≤ 1 →
  group_correlations assets corr_matrix cat_map = Ok initial_grouped ∧
  ∀ bucket,
    initial_grouped !! bucket =
    if bool_decide (bucket ∈ bucket_names) then Some [] else None.
Proof.
  intros Hn. split; [|apply initial_grouped_lookup].
  by rewrite group_correlations_flat, all_pairs_few.
Qed.

Lemma group_correlations_few_labels_witness :
  length ["BTC"] ≤ 1 ∧
  group_correlations (H:=square_libm) ["BTC"] no_columns foreign_map
  = Ok initial_grouped.
Proof.
  split; [simpl; lia|].
  apply (group_correlations_few_labels (H:=square_libm) ["BTC"] no_columns
           foreign_map). simpl. lia.
Defined.

(** X7. A [KeyError] from [group_correlations] always names a sector that
    the category map gives to one of the labels and that is neither "Others"
    nor a bucket of the result; so the call never raises it under a map
    built by [build_category_map]. *)
Theorem group_correlations_key_error `{Libm} (assets : list string)
    (corr_matrix : DataFrame) (cat_map : gmap string string) (k : string) :
  group_correlations assets corr_matrix cat_map = Raise (KeyError k) →
  (k ∉ bucket_names) ∧ (k ≠ "Others") ∧
  (∃ a, a ∈ assets ∧ cat_map !! a = Some k) ∧
  ∀ labels, cat_map ≠ build_category_map labels.
Proof.
  intros Hg.
  pose proof (group_correlations_result assets corr_matrix cat_map) as Hres.
  rewrite Hg in Hres. destruct Hres as (Hk & Ho & a & Ha & Hs).
  split_and!; [done | done | by exists a |].
  intros labels ->. apply Hk.
  apply build_category_map_lookup in Hs as (_ & tickers & _ & Hin & _).
  unfold bucket_names. apply elem_of_app. left.
  apply list_elem_of_fmap. by exists (k, tickers).
Qed.

Lemma group_correlations_key_error_witness :
  group_correlations (H:=square_libm) two_indices
    (matrix2 two_indices 0.95) foreign_map = Raise (KeyError "Equities") ∧
  ("Equities" ∉ bucket_names) ∧ ("Equities" ≠ "Others") ∧
  (∃ a, a ∈ two_indices ∧ foreign_map !! a = Some "Equities") ∧
  ∀ labels, foreign_map ≠ build_category_map labels.
Proof.
  assert (group_correlations (H:=square_libm) two_indices
            (matrix2 two_indices 0.95) foreign_map
          = Raise (KeyError "Equities")) as Hg by (vm_compute; reflexivity).
  split; [exact Hg|].
  apply (group_correlations_key_error (H:=square_libm) two_indices
           (matrix2 two_indices 0.95) foreign_map "Equities" Hg).
Defined.

(** X8. No bucket of a returned result has more rows than there are pairs
    of labels, [n (n - 1) / 2] for [n] labels. *)
Theorem group_correlations_row_count `{Libm} (assets : list string)
    (corr_matrix : DataFrame) (cat_map : gmap string string)
    (grouped : gmap string (list Entry)) (bucket : string)
    (rows : list Entry) :
  group_correlations assets corr_matrix cat_map = Ok grouped →
  grouped !! bucket = Some rows →
  2 * length rows ≤ length assets * (length assets - 1).
Proof.
  intros Hg Hrows.
  pose proof (group_correlations_result assets corr_matrix cat_map) as Hres.
  rewrite Hg in Hres. rewrite Hres in Hrows.
  case_bool_decide; [|done]. injection Hrows as <-.
  rewrite <- length_all_pairs.
  pose proof (length_omap_le (placed_in assets corr_matrix cat_map bucket)
                (all_pairs (length assets))). lia.
Qed.

Lemma group_correlations_row_count_witness :
  2 * length (default [] (returned
        (group_correlations (H:=square_libm) test_assets test_matrix
           (build_category_map test_assets)) !! "Stock Indices"))
  ≤ length test_assets * (length test_assets - 1).
Proof.
  apply (group_correlations_row_count (H:=square_libm) test_assets test_matrix
           (build_category_map test_assets)
           (returned (group_correlations (H:=square_libm) test_assets
                        test_matrix (build_category_map test_assets)))
           "Stock Indices");
    by_evaluation.
Defined.

(** ** build_category_map *)

Lemma nospace_first_token (l : string) : nospace (first_token l) = true.
Proof.
  induction l as [|c l IH]; [done|]. cbn [first_token].
  destruct (Ascii.eqb c " "%char) eqn:Hc; [done|].
  cbn [nospace]. by rewrite Hc, IH.
Qed.

Lemma first_token_idem (l : string) :
  first_token (first_token l) = first_token l.
Proof. apply first_token_nospace, nospace_first_token. Qed.

Lemma build_category_map_by_token (assets : list string) (l : string) :
  build_category_map assets !! l =
  if bool_decide (l ∈ assets)
  then sector_of_label SECTORS (first_token l) None
  else None.
Proof.
  unfold build_category_map. rewrite scan_sectors_lookup, lookup_empty.
  case_bool_decide; [|done].
  unfold sector_of_label.
  pose proof SECTORS_nospace as Hns. revert Hns.
  generalize (@None string). generalize SECTORS.
  intros sectors. induction sectors as [|[cat tickers] sectors IH];
    intros acc Hns; [done|].
  apply Forall_cons in Hns as [Hns1 Hns]. cbn [foldl fst snd].
  assert (existsb (λ p, ticker_matches p l) tickers =
          existsb (λ p, ticker_matches p (first_token l)) tickers) as ->.
  { simpl in Hns1. clear -Hns1.
    induction tickers as [|p tickers IHt]; [done|].
    apply Forall_cons in Hns1 as [Hp Hns1]. cbn [existsb].
    rewrite (IHt Hns1). f_equal.
    apply eq_true_iff_eq. rewrite !ticker_matches_first_token by done.
    by rewrite first_token_idem. }
  by apply IH.
Qed.

(** X9. The sector of a label depends only on its first word: two labels of
    the list that start with the same word, up to the first space, get the
    same sector or are both left out. *)
Theorem build_category_map_first_word (assets : list string) (l1 l2 : string) :
  l1 ∈ assets → l2 ∈ assets → first_token l1 = first_token l2 →
  build_category_map assets !! l1 = build_category_map assets !! l2.
Proof.
  intros H1 H2 Heq. rewrite !build_category_map_by_token.
  rewrite !bool_decide_eq_true_2 by done. by rewrite Heq.
Qed.

Lemma build_category_map_first_word_witness :
  "GC (Gold)" ∈ ["GC (Gold)"; "GC (Oro)"] ∧
  "GC (Oro)" ∈ ["GC (Gold)"; "GC (Oro)"] ∧
  first_token "GC (Gold)" = first_token "GC (Oro)" ∧
  build_category_map ["GC (Gold)"; "GC (Oro)"] !! "GC (Gold)" =
  build_category_map ["GC (Gold)"; "GC (Oro)"] !! "GC (Oro)".
Proof.
  assert ("GC (Gold)" ∈ ["GC (Gold)"; "GC (Oro)"]) as H1 by constructor.
  assert ("GC (Oro)" ∈ ["GC (Gold)"; "GC (Oro)"]) as H2
    by (constructor; constructor).
  refine (conj H1 (conj H2 (conj eq_refl _))).
  apply (build_category_map_first_word _ _ _ H1 H2). reflexivity.
Defined.

(** X10. The map does not depend on the order of the labels nor on
    repetitions, and the sector of a label does not depend on the other
    labels: lists with the same elements give the same map, and a label of
    [xs] keeps its binding when [ys] is added. *)
Theorem build_category_map_set (xs ys : list string) :
  ((∀ l, l ∈ xs ↔ l ∈ ys) → build_category_map xs = build_category_map ys) ∧
  (∀ l, l ∈ xs →
        build_category_map (xs ++ ys) !! l = build_category_map xs !! l).
Proof.
  split.
  - intros Hsame. apply map_eq. intros l.
    rewrite !build_category_map_by_token.
    by rewrite (bool_decide_ext _ _ (Hsame l)).
  - intros l Hl. rewrite !build_category_map_by_token.
    rewrite !bool_decide_eq_true_2; [done | done |].
    apply elem_of_app. by left.
Qed.

Lemma build_category_map_set_witness :
  (∀ l, l ∈ ["BTC"; "ES (S&P 500)"; "BTC"] ↔ l ∈ ["ES (S&P 500)"; "BTC"]) ∧
  build_category_map ["BTC"; "ES (S&P 500)"; "BTC"] =
  build_category_map ["ES (S&P 500)"; "BTC"].
Proof.
  assert (∀ l, l ∈ ["BTC"; "ES (S&P 500)"; "BTC"] ↔
               l ∈ ["ES (S&P 500)"; "BTC"]) as Hsame.
  { intros l. rewrite !elem_of_cons, !elem_of_nil. tauto. }
  split; [exact Hsame|].
  apply (proj1 (build_category_map_set ["BTC"; "ES (S&P 500)"; "BTC"]
                  ["ES (S&P 500)"; "BTC"]) Hsame).
Defined.

(** ** The colours and texts of the views *)

Lemma fkey_abs (x : float) :
  FloatOrder.fkey (PrimFloat.abs x) = key_abs <$> FloatOrder.fkey x.
Proof.
  unfold FloatOrder.fkey. rewrite FloatAxioms.abs_spec.
  destruct (Prim2SF x) as [s|s| |s m e]; try destruct s; try reflexivity.
  cbn. unfold key_abs. cbn. do 2 f_equal. f_equal; lia.
Qed.

(** As [float_order], with absolute values. *)
Ltac float_order_abs :=
  repeat match goal with
  | H : (_ && _) = true |- _ => apply andb_true_iff in H; destruct H
  | H : (_ && _) = false |- _ => apply andb_false_iff in H; destruct H
  | H : PrimFloat.leb _ _ = true |- _ => apply leb_fle in H
  | H : PrimFloat.leb _ _ = false |- _ => apply leb_not_fle in H
  | H : PrimFloat.ltb _ _ = true |- _ => apply ltb_flt in H
  | H : PrimFloat.ltb _ _ = false |- _ => apply ltb_not_flt in H
  | H : PrimFloat.is_nan _ = false |- _ => apply not_nan_fkey in H; destruct H
  | H : PrimFloat.is_nan _ = true |- _ => apply is_nan_fkey in H
  | |- PrimFloat.ltb _ _ = true => apply ltb_flt
  | |- PrimFloat.leb _ _ = true => apply leb_fle
  end;
  unfold FloatOrder.fle, FloatOrder.flt in *;
  rewrite ?fkey_abs in *;
  repeat match goal with
  | H : context [FloatOrder.fkey ?c] |- _ =>
      tryif is_var c then fail else
        let k := eval vm_compute in (FloatOrder.fkey c) in
        change (FloatOrder.fkey c) with k in H
  | |- context [FloatOrder.fkey ?c] =>
      tryif is_var c then fail else
        let k := eval vm_compute in (FloatOrder.fkey c) in
        change (FloatOrder.fkey c) with k
  end;
  repeat match goal with
  | H : FloatOrder.fkey ?v = _ |- _ => rewrite H in *; clear H
  end;
  repeat match goal with
  | |- context [FloatOrder.fkey ?v] =>
      is_var v; destruct (FloatOrder.fkey v) as [[[? ?] ?]|]
  | H : context [FloatOrder.fkey ?v] |- _ =>
      is_var v; destruct (FloatOrder.fkey v) as [[[? ?] ?]|]
  end;
  cbn [fmap option_fmap option_map] in *;
  unfold key_abs, FloatOrder.key_le, FloatOrder.key_lt in *;
  cbn [fst snd] in *;
  repeat match goal with
  | |- context [(?z <? 0)%Z] => destruct (Z.ltb_spec z 0)
  | H : context [(?z <? 0)%Z] |- _ => destruct (Z.ltb_spec z 0)
  end;
  cbn [fst snd] in *;
  first [done | lia].

Ltac color_leaves :=
  cbv [gui.update_view_color gui.update_diff_color
       legacy.update_view_color legacy.update_diff_color
       WEAK_CORRELATION_DISPLAY DIFF_POSITIVE_THRESHOLD
       DIFF_NEGATIVE_THRESHOLD COLOR_POSITIVE COLOR_NEGATIVE COLOR_NEUTRAL];
  repeat match goal with
  | |- context [if ?b then _ else _] => destruct b eqn:?
  end.

(** X11. The colour of the result label of a heatmap tab tells the range of
    the correlation: gray exactly inside (-0.30, 0.30), green exactly from
    0.30 up, and red from -0.30 down and for a correlation that is not a
    number. *)
Theorem update_view_color_range (val : float) :
  (gui.update_view_color val = "gray" ↔
     (-0.30 <? val)%float = true ∧ (val <? 0.30)%float = true) ∧
  (gui.update_view_color val = "green" ↔ (0.30 <=? val)%float = true) ∧
  (gui.update_view_color val = "red" ↔
     (val <=? -0.30)%float = true ∨ PrimFloat.is_nan val = true).
Proof.
  split_and!; (split; [|intros; destruct_or?; destruct_and?]).
  all: color_leaves; try discriminate; try reflexivity; try (intros _).
  all: try (exfalso; float_order_abs).
  all: try (split; float_order_abs).
  all: try float_order_abs.
  all: destruct (PrimFloat.is_nan val) eqn:?;
    [by right | left; float_order_abs].
Qed.

(** X12. The colour of a heatmap tab agrees with the classification: a
    correlation tagged pos_mod or pos_strong is shown green, one tagged
    neg_mod or neg_strong red, and one tagged null gray. *)
Theorem update_view_color_of_tag (val : float) :
  ((classify_correlation val).2 = "pos_mod" ∨
   (classify_correlation val).2 = "pos_strong" →
   gui.update_view_color val = "green") ∧
  ((classify_correlation val).2 = "neg_mod" ∨
   (classify_correlation val).2 = "neg_strong" →
   gui.update_view_color val = "red") ∧
  ((classify_correlation val).2 = "null" →
   gui.update_view_color val = "gray").
Proof.
  split_and!; intros Htag; destruct_or?; revert Htag.
  all: ladder_leaves; try discriminate; intros _.
  all: color_leaves; try reflexivity; exfalso; float_order_abs.
Qed.

Lemma update_view_color_of_tag_witness :
  (classify_correlation (-0.65)).2 = "neg_mod" ∧
  gui.update_view_color (-0.65) = "red".
Proof.
  split; [reflexivity|].
  apply (proj1 (proj2 (update_view_color_of_tag (-0.65)))).
  left. reflexivity.
Defined.

(** X13. In the comparison tab the label is green exactly for a difference
    above 0.10, red exactly for one below -0.10, and black otherwise, a
    difference that is not a number included; and when the medium-term
    correlation is too small for a percentage, the text is "(New)" exactly
    when the label is coloured and "(No change)" exactly when it is black. *)
Theorem update_diff_view `{FloatFormat} (v_medium diff : float) :
  (gui.update_diff_color diff = COLOR_POSITIVE ↔ (0.10 <? diff)%float = true) ∧
  (gui.update_diff_color diff = COLOR_NEGATIVE ↔
     (diff <? -0.10)%float = true) ∧
  (PrimFloat.is_nan diff = true → gui.update_diff_color diff = COLOR_NEUTRAL) ∧
  ((0.01 <? PrimFloat.abs v_medium)%float = false →
   (gui.update_diff_pct_text v_medium diff = "(New)" ↔
      gui.update_diff_color diff ≠ COLOR_NEUTRAL) ∧
   (gui.update_diff_pct_text v_medium diff = "(No change)" ↔
      gui.update_diff_color diff = COLOR_NEUTRAL)).
Proof.
  split_and!.
  - split; [|intros ?]; color_leaves; try discriminate; try reflexivity;
      try (intros _); first [done | exfalso; float_order_abs].
  - split; [|intros ?]; color_leaves; try discriminate; try reflexivity;
      try (intros _); first [done | exfalso; float_order_abs].
  - intros ?. color_leaves; try reflexivity; exfalso; float_order_abs.
  - intros Hsmall. unfold gui.update_diff_pct_text.
    cbv [PCT_CHANGE_MIN_DENOMINATOR NEW_CORRELATION_THRESHOLD].
    rewrite Hsmall.
    destruct (0.1 <? PrimFloat.abs diff)%float eqn:Habs;
      color_leaves; split; split; try done; try (intros []; done);
      exfalso; float_order_abs.
Qed.

Lemma update_diff_view_witness :
  (0.01 <? PrimFloat.abs 0.005)%float = false ∧
  (gui.update_diff_pct_text (H:=no_format) 0.005 0.25 = "(New)" ↔
     gui.update_diff_color 0.25 ≠ COLOR_NEUTRAL).
Proof.
  split; [reflexivity|].
  apply (proj2 (proj2 (proj2 (update_diff_view (H:=no_format) 0.005 0.25)))).
  reflexivity.
Defined.

(** ** The single-file version against the package *)

Lemma legacy_classify (val : float) :
  legacy.classify val = classify_correlation val.
Proof.
  unfold legacy.classify. ladder_leaves;
    repeat match goal with
    | |- context [if ?b then _ else _] => destruct b eqn:?
    end; first [reflexivity | exfalso; float_order].
Qed.

Lemma for_each_simulates {A S T} (sim : S → T) (xs : list A)
    (body1 : A → S → result S) (body2 : A → T → result T) (s : S) :
  (∀ x s, match body1 x s with
          | Ok s' => body2 x (sim s) = Ok (sim s')
          | Raise OverflowError => True
          | Raise e => body2 x (sim s) = Raise e
          end) →
  match for_each xs body1 s with
  | Ok s' => for_each xs body2 (sim s) = Ok (sim s')
  | Raise OverflowError => True
  | Raise e => for_each xs body2 (sim s) = Raise e
  end.
Proof.
  intros Hsim. revert s. induction xs as [|x xs IH]; intros s; [done|].
  cbn [for_each]. specialize (Hsim x s).
  destruct (body1 x s) as [s'|[|k|]]; cbn [mbind result_bind].
  - rewrite Hsim. cbn [mbind result_bind]. apply IH.
  - by rewrite Hsim.
  - by rewrite Hsim.
  - done.
Qed.

Lemma for_each_never {A S} (e : exn) (xs : list A)
    (body : A → S → result S) (s : S) :
  (∀ x s, body x s ≠ Raise e) → for_each xs body s ≠ Raise e.
Proof.
  intros Hbody. revert s. induction xs as [|x xs IH]; intros s; [done|].
  cbn [for_each]. specialize (Hbody x s).
  destruct (body x s) as [s'|e']; cbn [mbind result_bind]; [apply IH|done].
Qed.

Section legacy_loop.
Context `{Libm}.
Context (assets : list string) (corr_matrix : DataFrame)
        (cat_map : gmap string string).

Lemma legacy_pair_step (i j : nat) (grouped : gmap string (list Entry)) :
  match pair_step assets corr_matrix cat_map i j grouped with
  | Ok grouped' =>
      legacy.pair_step assets corr_matrix cat_map i j
        (numpy_rows grouped) = Ok (numpy_rows grouped')
  | Raise OverflowError => True
  | Raise e =>
      legacy.pair_step assets corr_matrix cat_map i j
        (numpy_rows grouped) = Raise e
  end.
Proof.
  unfold pair_step, legacy.pair_step, list_get.
  destruct (assets !! i) as [a|]; cbn [mbind result_bind]; [|done].
  destruct (assets !! j) as [b|]; cbn [mbind result_bind]; [|done].
  destruct (iloc corr_matrix i j) as [v|e] eqn:Hv; cbn [mbind result_bind].
  2:{ by rewrite (iloc_raise _ _ _ _ Hv). }
  destruct (float_pow2 v) as [sq|e] eqn:Hsq; cbn [mbind result_bind].
  2:{ by rewrite (float_pow2_raise _ _ Hsq). }
  rewrite legacy_classify.
  destruct (classify_correlation v) as [tipo tag].
  unfold legacy.target. cbn [existsb].
  set (e := mkEntry (a +:+ " vs " +:+ b) v (sq * 100)%float tipo tag).
  change (mkEntry (a +:+ " vs " +:+ b) v (libm_pow v 2 * 100)%float tipo tag)
    with (numpy_row e).
  assert (∀ bucket,
            match append_to bucket e grouped with
            | Ok grouped' =>
                append_to bucket (numpy_row e) (numpy_rows grouped) =
                Ok (numpy_rows grouped')
            | Raise OverflowError => True
            | Raise e' =>
                append_to bucket (numpy_row e) (numpy_rows grouped) =
                Raise e'
            end) as Happend.
  { intros bucket. unfold append_to, dict_get, numpy_rows.
    rewrite lookup_fmap.
    destruct (grouped !! bucket) as [items|]; cbn; [|done].
    by rewrite fmap_insert, fmap_app. }
  destruct (String.eqb _ _ && negb (String.eqb _ "Others")); [apply Happend|].
  destruct (String.eqb tag "weak"), (String.eqb tag "null");
    cbn [negb andb orb]; try done; apply Happend.
Qed.

Lemma legacy_pair_step_overflow (i j : nat)
    (grouped : gmap string (list Entry)) :
  legacy.pair_step assets corr_matrix cat_map i j grouped
  ≠ Raise OverflowError.
Proof.
  unfold legacy.pair_step, list_get.
  destruct (assets !! i) as [a|]; cbn [mbind result_bind]; [|done].
  destruct (assets !! j) as [b|]; cbn [mbind result_bind]; [|done].
  destruct (iloc corr_matrix i j) as [v|e] eqn:Hv; cbn [mbind result_bind].
  2:{ by rewrite (iloc_raise _ _ _ _ Hv). }
  destruct (legacy.classify v) as [tipo tag].
  destruct (legacy.target _ _ tag); [|done].
  unfold append_to, dict_get. by destruct (grouped !! _).
Qed.

End legacy_loop.

(** X14. The package computes what the single-file version computed inline.
    The interpretation and the tag of a correlation are the same (the
    defaults "Moderate" and "normal" are never the result).  Whenever
    [group_correlations], given the map of [build_category_map], returns,
    the loop of the single-file version returns the same buckets with the
    same rows in the same order, the similarity of each row being computed
    by numpy; when the one raises [IndexError] so does the other; and where
    the package raises [OverflowError] on a square that overflows, the
    single-file version goes on.  The colours and the bracketed text of the
    views are the same. *)
Theorem legacy_agrees `{Libm} `{FloatFormat} (assets : list string)
    (corr_matrix : DataFrame) (val other : float) :
  legacy.classify val = classify_correlation val ∧
  (∀ grouped,
     group_correlations assets corr_matrix (build_category_map assets)
       = Ok grouped →
     legacy.grouped_data assets corr_matrix
       = Ok (numpy_rows grouped)) ∧
  (group_correlations assets corr_matrix (build_category_map assets)
     = Raise IndexError →
   legacy.grouped_data assets corr_matrix = Raise IndexError) ∧
  legacy.grouped_data assets corr_matrix ≠ Raise OverflowError ∧
  legacy.update_view_color val = gui.update_view_color val ∧
  legacy.update_diff_color val = gui.update_diff_color val ∧
  legacy.update_diff_pct_text other val = gui.update_diff_pct_text other val.
Proof.
  assert (match group_correlations assets corr_matrix
                  (build_category_map assets) with
          | Ok grouped =>
              legacy.grouped_data assets corr_matrix
              = Ok (numpy_rows grouped)
          | Raise OverflowError => True
          | Raise e => legacy.grouped_data assets corr_matrix = Raise e
          end) as Hsim.
  { unfold group_correlations, legacy.grouped_data.
    change (scan_sectors legacy.categorias_raw assets ∅)
      with (build_category_map assets).
    assert (<["Inter-Market (Mixed)" := []]>
              (foldl (λ grouped '(cat, _), <[cat := []]> grouped) ∅
                     legacy.categorias_raw)
            = numpy_rows initial_grouped) as ->.
    { unfold initial_grouped, legacy.categorias_raw, SECTORS, INTER_MARKET.
      unfold numpy_rows. cbn [foldl]. by rewrite !fmap_insert, fmap_empty. }
    apply (for_each_simulates numpy_rows).
    intros i grouped.
    apply (for_each_simulates numpy_rows).
    intros j grouped'. apply legacy_pair_step. }
  split_and!.
  - apply legacy_classify.
  - intros grouped Hg. by rewrite Hg in Hsim.
  - intros Hg. by rewrite Hg in Hsim.
  - unfold legacy.grouped_data. apply for_each_never. intros i grouped.
    apply for_each_never. intros j grouped'. apply legacy_pair_step_overflow.
  - color_leaves; reflexivity.
  - reflexivity.
  - reflexivity.
Qed.

(** Where the two differ: at an entry whose square overflows the package
    raises and the single-file version lists the pair, with an infinite
    similarity. *)
Example legacy_goes_on :
  group_correlations (H:=square_libm) two_indices
    (matrix2 two_indices 1e200) (build_category_map two_indices)
    = Raise OverflowError ∧
  bucket (legacy.grouped_data (H:=square_libm) two_indices
            (matrix2 two_indices 1e200)) "Stock Indices" =
    Some [mkEntry "ES (S&P 500) vs NQ (Nasdaq)" 1e200 infinity
                  "Twins (High Risk)" "pos_strong"].
Proof. split; vm_compute; reflexivity. Qed.

(** ** The inverted registry of download_market_data *)

Lemma invert_lookup (registry : list (string * string)) (label ticker : string) :
  NoDup registry.*2 → (label, ticker) ∈ registry →
  invert registry !! ticker = Some label.
Proof.
  unfold invert. induction registry as [|[l t] registry IH] using rev_ind;
    [by intros _ ?%elem_of_nil|].
  rewrite fmap_app, foldl_app. cbn [fmap list_fmap foldl fst snd].
  intros [Hnd [Hdisj _]]%NoDup_app [Hin|Hin%list_elem_of_singleton]%elem_of_app.
  - rewrite lookup_insert_ne; [by apply IH|].
    intros <-. apply (Hdisj t); [|constructor].
    apply list_elem_of_fmap. by exists (label, t).
  - injection Hin as -> ->. apply lookup_insert_eq.
Qed.

Lemma invert_lookup_inv (registry : list (string * string)) (label c : string) :
  invert registry !! c = Some label → (label, c) ∈ registry.
Proof.
  unfold invert. induction registry as [|[l t] registry IH] using rev_ind;
    [cbn [foldl]; by rewrite lookup_empty|].
  rewrite foldl_app. cbn [foldl fst snd]. rewrite elem_of_app.
  destruct (decide (t = c)) as [->|Hne].
  - rewrite lookup_insert_eq. intros [= ->]. right. constructor.
  - rewrite lookup_insert_ne by done. intros ?%IH. by left.
Qed.

Lemma NoDup_fst_functional {A B} (l : list (A * B)) (x : A) (y1 y2 : B) :
  NoDup l.*1 → (x, y1) ∈ l → (x, y2) ∈ l → y1 = y2.
Proof.
  induction l as [|[a b] l IH]; [by intros _ ?%elem_of_nil|].
  cbn [fmap list_fmap fst]. intros [Hnin Hnd]%NoDup_cons.
  intros [[= -> ->]|H1]%elem_of_cons [[= ->]|H2]%elem_of_cons.
  - done.
  - exfalso. apply Hnin. apply list_elem_of_fmap. by exists (a, y2).
  - subst. exfalso. apply Hnin. apply list_elem_of_fmap. by exists (a, y1).
  - by apply IH.
Qed.

(** X15. Inverting a registry whose provider symbols are distinct, as those
    of [ASSETS] are, and renaming by it is a round trip: the symbols of the
    registry become its labels, in order; a column that is not a symbol
    keeps its name; and when the labels are distinct too, distinct columns
    of symbols never end up under one label. *)
Theorem rename_by_inverted_registry (registry : list (string * string)) :
  NoDup registry.*2 →
  pandas.rename_columns (invert registry) registry.*2 = registry.*1 ∧
  (∀ c, c ∉ registry.*2 → pandas.rename_columns (invert registry) [c] = [c]) ∧
  (NoDup registry.*1 →
   ∀ cols, NoDup cols → cols ⊆ registry.*2 →
           NoDup (pandas.rename_columns (invert registry) cols)).
Proof.
  intros Hnd. unfold pandas.rename_columns. split_and!.
  - rewrite <- list_fmap_compose. apply list_fmap_ext.
    intros i [l t] Hlt%list_elem_of_lookup_2. cbn [compose snd fst].
    by rewrite (invert_lookup registry l t).
  - intros c Hc. cbn [fmap list_fmap].
    destruct (invert registry !! c) as [l|] eqn:Hl; [|done].
    exfalso. apply Hc. apply invert_lookup_inv in Hl.
    apply list_elem_of_fmap. by exists (l, c).
  - intros Hlabels cols Hcols Hsub.
    apply NoDup_fmap_2_strong; [|done].
    intros c1 c2 H1%Hsub H2%Hsub.
    apply list_elem_of_fmap in H1 as ([l1 t1] & -> & H1).
    apply list_elem_of_fmap in H2 as ([l2 t2] & -> & H2).
    cbn [snd].
    rewrite (invert_lookup registry l1 t1), (invert_lookup registry l2 t2)
      by done.
    simpl. intros Heq. subst l1.
    by apply (NoDup_fst_functional registry l2).
Qed.

Lemma rename_by_inverted_registry_witness :
  NoDup ASSETS.*2 ∧
  pandas.rename_columns inv_map ASSETS.*2 = ASSETS.*1.
Proof.
  assert (NoDup ASSETS.*2) as Hnd
    by (apply (bool_decide_unpack _); vm_compute; exact I).
  split; [exact Hnd|].
  apply (proj1 (rename_by_inverted_registry ASSETS Hnd)).
Defined.

(** ** Tables shorter than a window *)

Lemma short_table_no_rows `{Pandas} (W : nat) (data : DataFrame) :
  rectangular data → nrows data ≤ W → 0 < ncols data →
  surviving W data = [].
Proof.
  intros Hrect HW Hk.
  destruct (surviving W data) as [|t ts] eqn:Hs; [done|].
  assert (t ∈ surviving W data) as Ht by (rewrite Hs; constructor).
  apply surviving_history in Ht; [lia | done].
Qed.

(** X16. A price table with no more rows than a window gives, for that
    window, a matrix in which every cell is not-a-number: with at most 15
    rows both matrices, with at most 60 rows the medium-term one, under
    either version of pandas. *)
Theorem compute_correlation_matrices_short_table `{Pandas} (data : DataFrame) :
  rectangular data →
  ∃ corr_short corr_medium,
    compute_correlation_matrices data = Ok (corr_short, corr_medium) ∧
    (nrows data ≤ SHORT_TERM_DAYS →
     Forall (Forall (λ v, v = nan)) (values corr_short)) ∧
    (nrows data ≤ MEDIUM_TERM_DAYS →
     Forall (Forall (λ v, v = nan)) (values corr_medium)).
Proof.
  intros Hrect.
  assert (∀ W, nrows data ≤ W →
               all_nan (pandas.corr (pandas.dropna
                                       (pandas.pct_change W data))))
    as Hcorr.
  { intros W HW.
    destruct (ncols data) as [|k] eqn:Hk.
    - unfold all_nan. rewrite engine_no_columns by done. constructor.
    - apply corr_no_rows. rewrite surviving_values by done.
      rewrite short_table_no_rows; [done..|lia]. }
  eexists _, _. split; [reflexivity|]. split; apply Hcorr.
Qed.

Lemma compute_correlation_matrices_short_table_witness :
  rectangular two_days ∧
  nrows two_days ≤ SHORT_TERM_DAYS ∧
  nrows two_days ≤ MEDIUM_TERM_DAYS ∧
  ∃ corr_short corr_medium,
    compute_correlation_matrices (H:=pandas2) two_days =
      Ok (corr_short, corr_medium) ∧
    Forall (Forall (λ v, v = nan)) (values corr_short) ∧
    Forall (Forall (λ v, v = nan)) (values corr_medium).
Proof.
  assert (rectangular two_days) as Hrect
    by (split; [reflexivity | repeat constructor]).
  assert (nrows two_days ≤ SHORT_TERM_DAYS) as Hshort
    by (vm_compute; lia).
  assert (nrows two_days ≤ MEDIUM_TERM_DAYS) as Hmedium
    by (vm_compute; lia).
  refine (conj Hrect (conj Hshort (conj Hmedium _))).
  destruct (compute_correlation_matrices_short_table (H:=pandas2) two_days
              Hrect) as (cs & cm & Hc & Hs & Hm).
  exists cs, cm. split; [exact Hc|]. split; [exact (Hs Hshort)|].
  exact (Hm Hmedium).
Defined.
